(** * CRSF client (crsf.py): frame codec, stream parser and parameter entries

    A shallow embedding of the protocol core of [crsf.py]: the CRC8 engine,
    [crsf_frame], [crsf_parser.digest], [create_frame], the PPM channel
    decoder, the int32 codec of [CRSF] and [CRSFParam] with its chunk
    reassembly and typed decoding.

    Conventions.  A Python [bytes]/[bytearray] is a [list byte]; a Python
    [int] is a [Z]; list positions and lengths are [nat].  A Python float is
    a binary64 primitive float.  A function that may raise returns an
    option, or a sum whose error side names the exception.  Writes to stderr
    and calls of the
    optional [debug_cb] callback carry no state of the program and are left
    out; every other statement of the embedded functions is kept. *)

From Stdlib Require Import ZArith List Bool Lia PeanoNat.
From Stdlib.Strings Require Import Byte.
From Stdlib Require Import PrimFloat FloatOps SpecFloat Uint63.
Import ListNotations.

Open Scope Z_scope.

(** ** Python values *)

Abbreviation byte := Byte.byte.

Definition b2n (b : byte) : nat := N.to_nat (Byte.to_N b).
Definition b2z (b : byte) : Z := Z.of_N (Byte.to_N b).

(** [bytearray([z])]: only values in [0, 256) are bytes. *)
Definition z2b (z : Z) : option byte :=
  if z <? 0 then None else Byte.of_N (Z.to_N z).

(** [l[i:j]] for non-negative [i], [j]. *)
Definition slice {A} (l : list A) (i j : nat) : list A :=
  firstn (j - i) (skipn i l).

(** [l[i:-1]]. *)
Definition slice_to_last {A} (l : list A) (i : nat) : list A :=
  firstn (length l - 1 - i) (skipn i l).

(** [l.index(x)] on bytes: position of the first occurrence, if any. *)
Fixpoint index (x : Z) (l : list byte) : option nat :=
  match l with
  | [] => None
  | b :: r => if b2z b =? x then Some O
              else match index x r with Some n => Some (S n) | None => None end
  end.

(** ** class CRSF: constants and the int32 codec *)

Module CRSF.

Definition SYNC := 0xc8.

Definition BROADCAST_ADDR := 0x00.
Definition REMOTE_ADDR := 0xEA.
Definition FC_ADDR := 0xC8.

Definition MSG_TYPE_PPM := 0x16.
Definition MSG_TYPE_PING := 0x28.
Definition MSG_TYPE_DEVICE_INFO := 0x29.
Definition MSG_TYPE_PARAM_ENTRY := 0x2B.
Definition MSG_TYPE_PARAM_READ := 0x2C.
Definition MSG_TYPE_PARAM_WRITE := 0x2D.
Definition MSG_TYPE_MAVLINK_ENV := 0xAA.

Definition OFFSET_LENGTH := 1%nat.
Definition OFFSET_MSG_TYPE := 2%nat.

(** [decode_int32(data)] for a slice [data]; the four subscripts raise
    IndexError on a shorter slice. *)
Definition decode_int32 (data : list byte) : option Z :=
  match data with
  | d0 :: d1 :: d2 :: d3 :: _ =>
      let uint32 :=
        Z.lor (Z.lor (Z.lor (Z.shiftl (b2z d0) 24) (Z.shiftl (b2z d1) 16))
                     (Z.shiftl (b2z d2) 8)) (b2z d3) in
      if Z.land uint32 0x80000000 =? 0 then Some uint32
      else Some (- (Z.lnot uint32) - 1)
  | _ => None
  end.

(** [encode_int32(val)]: a list of four ints, each in [0, 256). *)
Definition encode_int32 (val : Z) : list Z :=
  [ Z.land (Z.shiftr val 24) 0xFF;
    Z.land (Z.shiftr val 16) 0xFF;
    Z.land (Z.shiftr val 8) 0xFF;
    Z.land val 0xFF ].

End CRSF.

(** ** class crsf_crc8 *)

Module crsf_crc8.

Definition RESET_VALUE := 0x00.
Definition POLYNOM_1 := 0xD5.
Definition POLYNOM_2 := 0xBA.
Definition MSB_SET := 0x80.
Definition FINISH_VALUE := 0x00.

(** One round of the [for i in range(8)] loop of [_calc], on the pair
    ([self.val], [byte]). *)
Definition calc_round (poly : Z) (st : Z * Z) : Z * Z :=
  let '(val, byte) := st in
  let msb_flag := Z.land val MSB_SET in
  let val := Z.shiftl val 1 in
  let val := if Z.land byte MSB_SET =? 0 then val else val + 1 in
  let byte := Z.shiftl byte 1 in
  let val := if msb_flag =? 0 then val else Z.lxor val poly in
  (val, byte).

(** [_calc(byte)]: the new [self.val]. *)
Definition _calc (poly val byte : Z) : Z :=
  Z.land (fst (Nat.iter 8 (calc_round poly) (val, byte))) 0xFF.

(** [digest(data)]. *)
Definition digest (poly val : Z) (data : list byte) : Z :=
  fold_left (fun v x => _calc poly v (b2z x)) data val.

(** [finish()]. *)
Definition finish (poly val : Z) : Z := _calc poly val FINISH_VALUE.

End crsf_crc8.

(** [calc_crc8(data)]. *)
Definition calc_crc8 (data : list byte) : Z :=
  crsf_crc8.finish crsf_crc8.POLYNOM_1
    (crsf_crc8.digest crsf_crc8.POLYNOM_1 crsf_crc8.RESET_VALUE data).

(** ** class crsf_frame *)

Record crsf_frame := mk_frame { data : list byte }.

Module frame.

(** [len]: [data[1] + 2]. *)
Definition len (f : crsf_frame) : option Z :=
  option_map (fun b => b2z b + 2) (nth_error (data f) 1).

(** [type]: [data[2]]. *)
Definition type (f : crsf_frame) : option Z :=
  option_map b2z (nth_error (data f) 2).

Definition bytes (f : crsf_frame) : list byte := data f.

Definition extended_type (t : Z) : bool :=
  ((0x28 <=? t) && (t <=? 0x96)) || (t =? CRSF.MSG_TYPE_MAVLINK_ENV).

Definition is_extended (f : crsf_frame) : option bool :=
  option_map extended_type (type f).

(** [origin] and [destination]: outer [None] is an IndexError, inner
    [None] is Python's [None]. *)
Definition origin (f : crsf_frame) : option (option Z) :=
  match is_extended f with
  | None => None
  | Some true => option_map (fun b => Some (b2z b)) (nth_error (data f) 4)
  | Some false => Some None
  end.

Definition destination (f : crsf_frame) : option (option Z) :=
  match is_extended f with
  | None => None
  | Some true => option_map (fun b => Some (b2z b)) (nth_error (data f) 3)
  | Some false => Some None
  end.

(** [payload]: [data[5 if is_extended else 3 : -1]]. *)
Definition payload (f : crsf_frame) : option (list byte) :=
  match is_extended f with
  | None => None
  | Some true => Some (slice_to_last (data f) 5)
  | Some false => Some (slice_to_last (data f) 3)
  end.

End frame.

(** ** class crsf_parser *)

Record crsf_parser := mk_parser { pdata : list byte; silent : bool }.

Module parser.

(** [__init__(silent)]. *)
Definition init (silent : bool) : crsf_parser := mk_parser [] silent.

(** The inner loop [while self.data and self.data[0] != CRSF.SYNC]. *)
Fixpoint discard_to_sync (buf : list byte) : list byte :=
  match buf with
  | [] => []
  | b :: r => if b2z b =? CRSF.SYNC then buf else discard_to_sync r
  end.

(** The loop [while len(self.data) >= 4] of [digest]: the frames yielded
    and the buffer left.  Each round that does not leave the loop shortens
    the buffer, so the loop is run on a counter; [None] is a counter that
    was too small. *)
Fixpoint digest_loop (fuel : nat) (buf : list byte)
  : option (list crsf_frame * list byte) :=
  if (length buf <? 4)%nat then Some ([], buf) else
  match fuel with
  | O => None
  | S fuel' =>
      let buf := discard_to_sync buf in
      match nth_error buf 1 with
      | Some l =>
          let frame_len := (b2n l + 2)%nat in
          if (frame_len <=? length buf)%nat then
            let crc_byte := nth_error buf (frame_len - 1) in
            let calc_crc := calc_crc8 (slice buf 2 (frame_len - 1)) in
            if match crc_byte with
               | Some c => b2z c =? calc_crc
               | None => false
               end
            then
              match digest_loop fuel' (skipn frame_len buf) with
              | Some (fs, rest) =>
                  Some (mk_frame (firstn frame_len buf) :: fs, rest)
              | None => None
              end
            else digest_loop fuel' (skipn 1 buf)
          else Some ([], buf)
      | None => Some ([], buf)
      end
  end.

(** [digest(data)], run to exhaustion: [self.data += data], then the
    loop.  The result is the list of frames yielded and the parser after
    the call. *)
Definition digest (p : crsf_parser) (d : list byte)
  : option (list crsf_frame * crsf_parser) :=
  let buf := pdata p ++ d in
  match digest_loop (S (length buf)) buf with
  | Some (fs, rest) => Some (fs, mk_parser rest (silent p))
  | None => None
  end.

(** Successive calls of [digest] on the pieces of a stream, the frames
    collected in order. *)
Fixpoint feed (p : crsf_parser) (pieces : list (list byte))
  : option (list crsf_frame * crsf_parser) :=
  match pieces with
  | [] => Some ([], p)
  | d :: ds =>
      match digest p d with
      | Some (fs, p') =>
          match feed p' ds with
          | Some (gs, p'') => Some (fs ++ gs, p'')
          | None => None
          end
      | None => None
      end
  end.

End parser.

(** ** create_frame *)

(** [create_frame(data)]: [frame[1] = len(frame) - 1] raises ValueError when
    the value is not a byte. *)
Definition create_frame (body : list byte) : option crsf_frame :=
  match z2b (Z.of_nat (length body) + 2 - 1), z2b (calc_crc8 body) with
  | Some l, Some c => Some (mk_frame (Byte.xc8 :: l :: body ++ [c]))
  | _, _ => None
  end.

(** [ORIGIN_ADDR]: [eval("CRSF.FC_ADDR")]. *)
Definition ORIGIN_ADDR : byte := Byte.xc8.

(** [create_ping_frame(dest, orig)]. *)
Definition create_ping_frame (dest orig : byte) : option crsf_frame :=
  create_frame [Byte.x28; dest; orig].

(** [create_param_read_frame(dest, param_num, chunk, orig)]. *)
Definition create_param_read_frame (dest param_num chunk orig : byte)
  : option crsf_frame :=
  create_frame [Byte.x2c; dest; orig; param_num; chunk].

(** [create_param_write_frame(dest, param_num, value, orig)]. *)
Definition create_param_write_frame (dest param_num : byte)
  (value : list byte) (orig : byte) : option crsf_frame :=
  create_frame ([Byte.x2d; dest; orig; param_num] ++ value).

(** [create_device_info_frame(dest, orig)]: the name is "Agent Python". *)
Definition create_device_info_frame (dest orig : byte) : option crsf_frame :=
  create_frame
    ([Byte.x29; dest; orig] ++
     [Byte.x41; Byte.x67; Byte.x65; Byte.x6e; Byte.x74; Byte.x20;
      Byte.x50; Byte.x79; Byte.x74; Byte.x68; Byte.x6f; Byte.x6e] ++
     [Byte.x00;
      Byte.x12; Byte.x34; Byte.x56; Byte.x78;
      Byte.x01; Byte.x23; Byte.x45; Byte.x02;
      Byte.x00; Byte.x00; Byte.x11; Byte.x11;
      Byte.x00;
      Byte.x01]).

(** ** PPM channels *)

(** [bin_byte]: ['{:08b}'.format(x)] for a byte, as eight bits, the most
    significant first. *)
Definition bin_byte (x : byte) : list bool :=
  map (fun i => Z.testbit (b2z x) (Z.of_nat i)) [7; 6; 5; 4; 3; 2; 1; 0]%nat.

(** [int(s, 2)] on a string of binary digits. *)
Definition int2 (s : list bool) : Z :=
  fold_left (fun acc (d : bool) => 2 * acc + (if d then 1 else 0)) s 0.

(** [ticks_to_us]. *)
Definition ticks_to_us (x : Z) : Z := (x - 992) * 5 / 8 + 1500.

(** [range(start, stop, -step)] for a positive [step]. *)
Definition range_down (start stop step : Z) : list Z :=
  let n := if stop <? start then (start - stop - 1) / step + 1 else 0 in
  map (fun i => start - Z.of_nat i * step) (seq 0 (Z.to_nat n)).

(** [ppm_channels_decode(data)]; [None] is the AssertionError. *)
Definition ppm_channels_decode (data : list byte) : option (list Z) :=
  let data := flat_map bin_byte (rev data) in
  if (Nat.modulo (length data) 11 =? 0)%nat then
    let ticks :=
      map (fun x => int2 (slice data (Z.to_nat x) (Z.to_nat (x + 11))))
          (range_down (Z.of_nat (length data) - 11) 0 11) in
    Some (map ticks_to_us ticks)
  else None.

(** ** Strings and floats *)

(** A Python [str]: its code points. *)
Definition str := list Z.

Definition is_cont (b : byte) : bool := (0x80 <=? b2z b) && (b2z b <=? 0xBF).
Definition cbits (b : byte) : Z := Z.land (b2z b) 0x3F.

(** [bytes(l).decode()]: strict UTF-8; [None] is the UnicodeDecodeError. *)
Fixpoint utf8_decode (l : list byte) : option str :=
  match l with
  | [] => Some []
  | b0 :: r0 =>
      let z0 := b2z b0 in
      if z0 <? 0x80 then option_map (cons z0) (utf8_decode r0)
      else if z0 <? 0xC2 then None
      else if z0 <? 0xE0 then
        match r0 with
        | b1 :: r1 =>
            if is_cont b1
            then option_map (cons (Z.shiftl (Z.land z0 0x1F) 6 + cbits b1))
                            (utf8_decode r1)
            else None
        | _ => None
        end
      else if z0 <? 0xF0 then
        match r0 with
        | b1 :: b2 :: r2 =>
            let lo := if z0 =? 0xE0 then 0xA0 else 0x80 in
            let hi := if z0 =? 0xED then 0x9F else 0xBF in
            if (lo <=? b2z b1) && (b2z b1 <=? hi) && is_cont b2
            then option_map
                   (cons (Z.shiftl (Z.land z0 0x0F) 12
                          + Z.shiftl (cbits b1) 6 + cbits b2))
                   (utf8_decode r2)
            else None
        | _ => None
        end
      else if z0 <? 0xF5 then
        match r0 with
        | b1 :: b2 :: b3 :: r3 =>
            let lo := if z0 =? 0xF0 then 0x90 else 0x80 in
            let hi := if z0 =? 0xF4 then 0x8F else 0xBF in
            if (lo <=? b2z b1) && (b2z b1 <=? hi) && is_cont b2 && is_cont b3
            then option_map
                   (cons (Z.shiftl (Z.land z0 0x07) 18
                          + Z.shiftl (cbits b1) 12
                          + Z.shiftl (cbits b2) 6 + cbits b3))
                   (utf8_decode r3)
            else None
        | _ => None
        end
      else None
  end.

(** [s.split(sep)] for a one-character separator. *)
Fixpoint split (sep : Z) (s : str) : list str :=
  match s with
  | [] => [[]]
  | c :: r =>
      if c =? sep then [] :: split sep r
      else match split sep r with
           | h :: t => (c :: h) :: t
           | [] => [[c]]
           end
  end.

(** Exceptions the embedded functions can raise. *)
Inductive exn :=
| IndexError | ValueError | TypeError | ZeroDivisionError | OverflowError.

(** A Python number that is an [int] or a [float]. *)
Inductive pynum :=
| PyInt (z : Z)
| PyFloat (f : float).

(** [float(z)] for an int of less than 63 bits. *)
Definition float_of_Z (z : Z) : float :=
  if z <? 0 then PrimFloat.opp (PrimFloat.of_uint63 (Uint63.of_Z (- z)))
  else PrimFloat.of_uint63 (Uint63.of_Z z).

(** The float a decimal literal [0.0...01] with [k] digits after the point
    denotes: the binary64 nearest to [1 / 10^k], ties to even. *)
Definition tenth_pow (k : nat) : float :=
  SF2Prim (SFdiv prec emax (S754_finite false 1 0)
                           (S754_finite false (Pos.pow 10 (Pos.of_nat k)) 0)).

(** [round(x)] of a float: the nearest int, ties to even; NaN raises
    ValueError and an infinity OverflowError. *)
Definition py_round (x : float) : exn + Z :=
  match Prim2SF x with
  | S754_nan => inl ValueError
  | S754_infinity _ => inl OverflowError
  | S754_zero _ => inr 0
  | S754_finite s m e =>
      let a :=
        if 0 <=? e then Z.pos m * 2 ^ e
        else
          let d := 2 ^ (- e) in
          let q := Z.pos m / d in
          let r := Z.pos m mod d in
          if 2 * r <? d then q
          else if d <? 2 * r then q + 1
          else if Z.even q then q else q + 1 in
      inr (if s then - a else a)
  end.

(** The result of a method that mutates [self]: it returns, or raises,
    and in both cases leaves the object in some state. *)
Inductive outcome (S : Type) :=
| Returned (s : S)
| Raised (e : exn) (s : S).
Arguments Returned {S} s.
Arguments Raised {S} e s.

(** [l[-n] = v] for [n > 0]; [None] is the IndexError. *)
Definition set_from_end {A} (l : list A) (n : nat) (v : A) : option (list A) :=
  if ((0 <? n) && (n <=? length l))%nat
  then Some (firstn (length l - n) l ++ v :: skipn (length l - n + 1) l)
  else None.

(** [[f(x) for x in l]] where [f] may raise. *)
Fixpoint traverse {A B} (f : A -> option B) (l : list A) : option (list B) :=
  match l with
  | [] => Some []
  | x :: r =>
      match f x, traverse f r with
      | Some y, Some ys => Some (y :: ys)
      | _, _ => None
      end
  end.

(** The body of a [try] that looks for the first [sentinel] at or after
    position [start] and decodes the bytes before it: the position found
    and the string, or [None] when the search or the decoding raises. *)
Definition find_decode (payload : list byte) (start : nat) (sentinel : Z)
  : option (nat * str) :=
  match index sentinel (skipn start payload) with
  | Some i =>
      let e := (start + i)%nat in
      match utf8_decode (slice payload start e) with
      | Some s => Some (e, s)
      | None => None
      end
  | None => None
  end.

(** ** crsf_frame.parse and rle_decode *)

(** What [parse] returns: [device_name], [sn], [hw_id], [sw_id],
    [param_count], [version]. *)
Record device_info := mk_device_info {
  di_name : str;
  di_sn : Z;
  di_hw_id : Z;
  di_sw_id : Z;
  di_param_count : Z;
  di_version : Z
}.

(** [(t[i] << 24) | (t[i+1] << 16) | (t[i+2] << 8) | t[i+3]]; [None] is the
    IndexError. *)
Definition be32_at (t : list byte) (i : nat) : option Z :=
  match nth_error t i, nth_error t (i + 1), nth_error t (i + 2),
        nth_error t (i + 3) with
  | Some a, Some b, Some c, Some d =>
      Some (Z.lor (Z.lor (Z.lor (Z.shiftl (b2z a) 24) (Z.shiftl (b2z b) 16))
                         (Z.shiftl (b2z c) 8)) (b2z d))
  | _, _, _, _ => None
  end.

(** [crsf_frame.parse()].  A UnicodeDecodeError is a ValueError. *)
Definition crsf_frame_parse (f : crsf_frame) : exn + device_info :=
  match frame.type f, frame.payload f with
  | Some ty, Some payload =>
    if ty =? CRSF.MSG_TYPE_DEVICE_INFO then
      match index 0x00 payload with
      | None => inl ValueError
      | Some delim =>
        let tail := skipn (delim + 1) payload in
        match utf8_decode (firstn delim payload) with
        | None => inl ValueError
        | Some device_name =>
          match be32_at tail 0, be32_at tail 4, be32_at tail 8,
                nth_error tail 12, nth_error tail 13 with
          | Some sn, Some hw_id, Some sw_id, Some param_count, Some version =>
              inr (mk_device_info device_name sn hw_id sw_id
                                  (b2z param_count) (b2z version))
          | _, _, _, _, _ => inl IndexError
          end
        end
      end
    else inl ValueError
  | _, _ => inl IndexError
  end.

(** The loop of [rle_decode], on ([res], [off], [ch]); it runs at most six
    times, and the counter [fuel] is the number of rounds left.  [None] is
    the IndexError of [data[off]]. *)
Fixpoint rle_loop (fuel : nat) (data : list byte) (res : Z) (off : nat)
  (ch : Z) : option (Z * nat) :=
  match fuel with
  | O => Some (res, off)
  | S fuel' =>
      if negb (Z.land ch 0x80 =? 0) && (off <? 6)%nat then
        match nth_error data off with
        | None => None
        | Some b =>
            let ch := b2z b in
            let tmp := Z.land ch 0x7F in
            rle_loop fuel' data (Z.lor res (Z.shiftl tmp (7 * Z.of_nat off)))
                     (S off) ch
        end
      else Some (res, off)
  end.

(** [rle_decode(data)]: [off] starts at 0 and the loop stops at 6, so six
    rounds and the test after them are all the loop can do. *)
Definition rle_decode (data : list byte) : option (Z * nat) :=
  rle_loop 7 data 0 0 0x80.

(** ** class CRSFParam *)

Inductive pyvalue :=
| VInt (z : Z)
| VStr (s : str).

Module CRSFParam.

Definition TEXT_SELECTION_TYPE := 0x09.
Definition STRING_TYPE := 0x0a.
Definition FOLDER_TYPE := 0x0b.
Definition INFO_TYPE := 0x0c.
Definition COMMAND_TYPE := 0x0d.
Definition UINT8_TYPE := 0.
Definition INT8_TYPE := 1.
Definition UINT16_TYPE := 2.
Definition INT16_TYPE := 3.
Definition UINT32_TYPE := 4.
Definition INT32_TYPE := 5.
Definition FLOAT_TYPE := 8.

(** The attributes of a parameter.  [None] is Python's [None]; [hidden]
    is [False] (0) at first and then [data_type & 0x80]. *)
Record t := mk {
  num : Z;
  parent_folder : option Z;
  type : option Z;
  name : str;
  chunks : list (option (list byte));
  value : option pyvalue;
  hidden : Z;
  min : option Z;
  default : option Z;
  max : option Z;
  unit : option str;
  children : option (list Z);
  options : list str;
  max_length : option Z;
  decimal_point : option Z;
  step_size : option Z;
  status : option Z;
  timeout : option pynum;
  info : option str;
  created_time : float;
  obtained_time : float
}.

(** [__init__(param_num)] at clock reading [now]. *)
Definition init (param_num : Z) (now : float) : t :=
  mk param_num None None [46; 46; 46] [] None 0 None None None None None []
     None None None None None None now PrimFloat.zero.

Definition set_parent_folder v p := mk (num p) v (type p) (name p) (chunks p) (value p) (hidden p) (min p) (default p) (max p) (unit p) (children p) (options p) (max_length p) (decimal_point p) (step_size p) (status p) (timeout p) (info p) (created_time p) (obtained_time p).
Definition set_type v p := mk (num p) (parent_folder p) v (name p) (chunks p) (value p) (hidden p) (min p) (default p) (max p) (unit p) (children p) (options p) (max_length p) (decimal_point p) (step_size p) (status p) (timeout p) (info p) (created_time p) (obtained_time p).
Definition set_name v p := mk (num p) (parent_folder p) (type p) v (chunks p) (value p) (hidden p) (min p) (default p) (max p) (unit p) (children p) (options p) (max_length p) (decimal_point p) (step_size p) (status p) (timeout p) (info p) (created_time p) (obtained_time p).
Definition set_chunks v p := mk (num p) (parent_folder p) (type p) (name p) v (value p) (hidden p) (min p) (default p) (max p) (unit p) (children p) (options p) (max_length p) (decimal_point p) (step_size p) (status p) (timeout p) (info p) (created_time p) (obtained_time p).
Definition set_value v p := mk (num p) (parent_folder p) (type p) (name p) (chunks p) v (hidden p) (min p) (default p) (max p) (unit p) (children p) (options p) (max_length p) (decimal_point p) (step_size p) (status p) (timeout p) (info p) (created_time p) (obtained_time p).
Definition set_hidden v p := mk (num p) (parent_folder p) (type p) (name p) (chunks p) (value p) v (min p) (default p) (max p) (unit p) (children p) (options p) (max_length p) (decimal_point p) (step_size p) (status p) (timeout p) (info p) (created_time p) (obtained_time p).
Definition set_min v p := mk (num p) (parent_folder p) (type p) (name p) (chunks p) (value p) (hidden p) v (default p) (max p) (unit p) (children p) (options p) (max_length p) (decimal_point p) (step_size p) (status p) (timeout p) (info p) (created_time p) (obtained_time p).
Definition set_default v p := mk (num p) (parent_folder p) (type p) (name p) (chunks p) (value p) (hidden p) (min p) v (max p) (unit p) (children p) (options p) (max_length p) (decimal_point p) (step_size p) (status p) (timeout p) (info p) (created_time p) (obtained_time p).
Definition set_max v p := mk (num p) (parent_folder p) (type p) (name p) (chunks p) (value p) (hidden p) (min p) (default p) v (unit p) (children p) (options p) (max_length p) (decimal_point p) (step_size p) (status p) (timeout p) (info p) (created_time p) (obtained_time p).
Definition set_unit v p := mk (num p) (parent_folder p) (type p) (name p) (chunks p) (value p) (hidden p) (min p) (default p) (max p) v (children p) (options p) (max_length p) (decimal_point p) (step_size p) (status p) (timeout p) (info p) (created_time p) (obtained_time p).
Definition set_children v p := mk (num p) (parent_folder p) (type p) (name p) (chunks p) (value p) (hidden p) (min p) (default p) (max p) (unit p) v (options p) (max_length p) (decimal_point p) (step_size p) (status p) (timeout p) (info p) (created_time p) (obtained_time p).
Definition set_options v p := mk (num p) (parent_folder p) (type p) (name p) (chunks p) (value p) (hidden p) (min p) (default p) (max p) (unit p) (children p) v (max_length p) (decimal_point p) (step_size p) (status p) (timeout p) (info p) (created_time p) (obtained_time p).
Definition set_max_length v p := mk (num p) (parent_folder p) (type p) (name p) (chunks p) (value p) (hidden p) (min p) (default p) (max p) (unit p) (children p) (options p) v (decimal_point p) (step_size p) (status p) (timeout p) (info p) (created_time p) (obtained_time p).
Definition set_decimal_point v p := mk (num p) (parent_folder p) (type p) (name p) (chunks p) (value p) (hidden p) (min p) (default p) (max p) (unit p) (children p) (options p) (max_length p) v (step_size p) (status p) (timeout p) (info p) (created_time p) (obtained_time p).
Definition set_step_size v p := mk (num p) (parent_folder p) (type p) (name p) (chunks p) (value p) (hidden p) (min p) (default p) (max p) (unit p) (children p) (options p) (max_length p) (decimal_point p) v (status p) (timeout p) (info p) (created_time p) (obtained_time p).
Definition set_status v p := mk (num p) (parent_folder p) (type p) (name p) (chunks p) (value p) (hidden p) (min p) (default p) (max p) (unit p) (children p) (options p) (max_length p) (decimal_point p) (step_size p) v (timeout p) (info p) (created_time p) (obtained_time p).
Definition set_timeout v p := mk (num p) (parent_folder p) (type p) (name p) (chunks p) (value p) (hidden p) (min p) (default p) (max p) (unit p) (children p) (options p) (max_length p) (decimal_point p) (step_size p) (status p) v (info p) (created_time p) (obtained_time p).
Definition set_info v p := mk (num p) (parent_folder p) (type p) (name p) (chunks p) (value p) (hidden p) (min p) (default p) (max p) (unit p) (children p) (options p) (max_length p) (decimal_point p) (step_size p) (status p) (timeout p) v (created_time p) (obtained_time p).
Definition set_obtained_time v p := mk (num p) (parent_folder p) (type p) (name p) (chunks p) (value p) (hidden p) (min p) (default p) (max p) (unit p) (children p) (options p) (max_length p) (decimal_point p) (step_size p) (status p) (timeout p) (info p) (created_time p) v.

(** [get_float_decimal()]: [eval] of ['0.' + '0'*decimal_point + '1'], or
    of ['1'] when [decimal_point] is 0 or [None]. *)
Definition get_float_decimal (self : t) : pynum :=
  match decimal_point self with
  | Some dp =>
      if dp =? 0 then PyInt 1 else PyFloat (tenth_pow (Z.to_nat dp + 1))
  | None => PyInt 1
  end.

(** [encode_float(val)]: [inr None] is the refusal of a value out of
    range. *)
Definition encode_float (self : t) (val : float) : exn + option Z :=
  let d := match get_float_decimal self with
           | PyInt z => float_of_Z z
           | PyFloat f => f
           end in
  if PrimFloat.eqb d PrimFloat.zero then inl ZeroDivisionError else
  match py_round (PrimFloat.div val d) with
  | inl e => inl e
  | inr val =>
      match min self with
      | None => inl TypeError
      | Some lo =>
          if val <? lo then inr None else
          match max self with
          | None => inl TypeError
          | Some hi => if hi <? val then inr None else inr (Some val)
          end
      end
  end.

(** [self.x = CRSF.decode_int32(data)] followed by [k]. *)
Definition assign_int32 (set : option Z -> t -> t) (data : list byte)
  (s : t) (k : t -> outcome t) : outcome t :=
  match CRSF.decode_int32 data with
  | Some v => k (set (Some v) s)
  | None => Raised IndexError s
  end.

(** [process_frame], from [parent_folder, data_type = payload[2:4]] to
    the end, on the payload that the chunk handling leaves. *)
Definition decode_entry (self : t) (payload : list byte)
  (chunks_remain : Z) (now : float) : outcome t :=
  match slice payload 2 4 with
  | [pf; dt] =>
    let parent_folder := b2z pf in
    let hidden := Z.land (b2z dt) 0x80 in
    let data_type := Z.land (b2z dt) 0x7F in
    match find_decode payload 4 0x00 with
    | None => Returned self
    | Some (nul, name) =>
      if data_type =? FOLDER_TYPE then
        match index 0xFF (skipn (nul + 1) payload) with
        | None => Returned self
        | Some i =>
          let e := (nul + 1 + i)%nat in
          let children := map b2z (slice payload (nul + 1) e) in
          if chunks_remain =? 0 then
            Returned
              (set_obtained_time now
              (set_hidden hidden
              (set_name name
              (set_type (Some data_type)
              (set_parent_folder (Some parent_folder)
              (set_children (Some children) self))))))
          else Returned self
        end
      else if data_type =? COMMAND_TYPE then
        match find_decode payload (nul + 3) 0x00 with
        | None => Returned self
        | Some (_, info) =>
          if chunks_remain =? 0 then
            let s := set_hidden hidden
                    (set_name name
                    (set_type (Some data_type)
                    (set_parent_folder (Some parent_folder) self))) in
            match nth_error payload (nul + 1) with
            | None => Raised IndexError s
            | Some st =>
              let s := set_status (Some (b2z st)) s in
              match nth_error payload (nul + 2) with
              | None => Raised IndexError s
              | Some tm =>
                let timeout :=
                  if b2z tm mod 10 =? 0 then PyInt (b2z tm / 10)
                  else PyFloat (PrimFloat.mul (float_of_Z (b2z tm))
                                              (tenth_pow 1)) in
                Returned
                  (set_obtained_time now
                  (set_info (Some info)
                  (set_timeout (Some timeout) s)))
              end
            end
          else Returned self
        end
      else if data_type =? FLOAT_TYPE then
        match find_decode payload (nul + 22) 0x00 with
        | None => Returned self
        | Some (_, unit) =>
          if chunks_remain =? 0 then
            let s := set_name name
                    (set_hidden hidden
                    (set_type (Some data_type)
                    (set_parent_folder (Some parent_folder) self))) in
            assign_int32 (fun v => set_value (option_map VInt v))
              (slice payload (nul + 1) (nul + 5)) s (fun s =>
            assign_int32 set_min
              (slice payload (nul + 5) (nul + 9)) s (fun s =>
            assign_int32 set_max
              (slice payload (nul + 9) (nul + 13)) s (fun s =>
            assign_int32 set_default
              (slice payload (nul + 13) (nul + 17)) s (fun s =>
            match nth_error payload (nul + 17) with
            | None => Raised IndexError s
            | Some dp =>
              let s := set_decimal_point (Some (b2z dp)) s in
              assign_int32 set_step_size
                (slice payload (nul + 18) (nul + 22)) s (fun s =>
              Returned (set_obtained_time now (set_unit (Some unit) s)))
            end))))
          else Returned self
        end
      else if (data_type =? STRING_TYPE) || (data_type =? INFO_TYPE) then
        match find_decode payload (nul + 1) 0x00 with
        | None => Returned self
        | Some (e, value) =>
          match (if data_type =? STRING_TYPE
                 then option_map b2z (nth_error payload (e + 1))
                 else Some (Z.of_nat (length value))) with
          | None => Raised IndexError self
          | Some ml =>
            let s := set_max_length (Some ml) self in
            if chunks_remain =? 0 then
              Returned
                (set_obtained_time now
                (set_value (Some (VStr value))
                (set_hidden hidden
                (set_name name
                (set_type (Some data_type)
                (set_parent_folder (Some parent_folder) s))))))
            else Returned s
          end
        end
      else if data_type =? TEXT_SELECTION_TYPE then
        match find_decode payload (nul + 1) 0x00 with
        | None => Returned self
        | Some (e, options) =>
          let options := split 59 options in
          match slice payload (e + 1) (e + 5) with
          | [value; val_min; val_max; val_def] =>
            if chunks_remain =? 0 then
              Returned
                (set_obtained_time now
                (set_max (Some (b2z val_max))
                (set_default (Some (b2z val_def))
                (set_min (Some (b2z val_min))
                (set_options options
                (set_value (Some (VInt (b2z value)))
                (set_hidden hidden
                (set_name name
                (set_type (Some data_type)
                (set_parent_folder (Some parent_folder) self))))))))))
            else Returned self
          | _ => Raised ValueError self
          end
        end
      else
        let s := set_hidden hidden
                (set_type (Some data_type)
                (set_name name
                (set_type (Some data_type)
                (set_parent_folder (Some parent_folder) self)))) in
        if chunks_remain =? 0 then Returned (set_obtained_time now s)
        else Returned s
    end
  | _ => Raised ValueError self
  end.

(** The test of the [elif self.chunks:] branch once the last slot is
    filled, and the payload it reassembles: [inl] is an IndexError of a
    subscript [x[1]] or [x[0]], [inr None] the [else] branch. *)
Definition reassemble (self_num : Z) (cs : list (option (list byte)))
  : exn + option (list byte) :=
  match traverse (fun x => x) cs with
  | None => inr None
  | Some xs =>
    match traverse (fun x => nth_error x 1) xs with
    | None => inl IndexError
    | Some seconds =>
      if list_eq_dec Z.eq_dec (rev (map b2z seconds))
                              (map Z.of_nat (seq 0 (length cs)))
      then
        match traverse (fun x => nth_error x 0) xs with
        | None => inl IndexError
        | Some firsts =>
          if Nat.eqb (length (filter (fun b => b2z b =? self_num) firsts))
                     (length cs)
          then inr (Some (firstn 2 (hd [] xs) ++ concat (map (skipn 2) xs)))
          else inr None
        end
      else inr None
    end
  end.

(** [process_frame(frame)] at clock reading [now]. *)
Definition process_frame (self : t) (frame : crsf_frame) (now : float)
  : outcome t :=
  match frame.type frame, frame.payload frame with
  | Some ty, Some payload =>
    if negb (ty =? CRSF.MSG_TYPE_PARAM_ENTRY) then Returned self else
    match firstn 2 payload with
    | [pn; cr] =>
      let chunks_remain := b2z cr in
      if negb (chunks_remain =? 0) then
        let self :=
          match chunks self with
          | [] => set_chunks (repeat None (Z.to_nat (chunks_remain + 1))) self
          | _ :: _ => self
          end in
        match set_from_end (chunks self) (Z.to_nat (chunks_remain + 1))
                           (Some payload) with
        | Some cs => Returned (set_chunks cs self)
        | None => Raised IndexError self
        end
      else
        match chunks self with
        | _ :: _ =>
          match set_from_end (chunks self) 1 (Some payload) with
          | None => Raised IndexError self
          | Some cs =>
            let self := set_chunks cs self in
            match reassemble (num self) cs with
            | inl e => Raised e self
            | inr None => Returned self
            | inr (Some payload) =>
                decode_entry (set_chunks [] self) payload chunks_remain now
            end
          end
        | [] => decode_entry self payload chunks_remain now
        end
    | _ => Raised ValueError self
    end
  | _, _ => Raised IndexError self
  end.

(** Successive calls of [process_frame], one clock reading per call; an
    exception ends the run. *)
Fixpoint process_frames (self : t) (calls : list (crsf_frame * float))
  : outcome t :=
  match calls with
  | [] => Returned self
  | (f, now) :: r =>
      match process_frame self f now with
      | Returned s => process_frames s r
      | Raised e s => Raised e s
      end
  end.

(** [chunks.index(None)]. *)
Fixpoint index_none {A} (l : list (option A)) : option nat :=
  match l with
  | [] => None
  | None :: _ => Some O
  | Some _ :: r => option_map S (index_none r)
  end.

(** The method [create_param_read_frame(origin)]: [inr None] is the return
    of [None] after "error 5"; [inl ValueError] is a parameter number or a
    chunk number that is not a byte. *)
Definition create_param_read_frame (self : t) (origin : byte)
  : exn + option crsf_frame :=
  let chunk :=
    match chunks self with
    | [] => Some O
    | _ :: _ => index_none (chunks self)
    end in
  match chunk with
  | None => inr None
  | Some chunk =>
      match z2b (num self), z2b (Z.of_nat chunk) with
      | Some n, Some c =>
          match create_param_read_frame origin n c ORIGIN_ADDR with
          | Some f => inr (Some f)
          | None => inl ValueError
          end
      | _, _ => inl ValueError
      end
  end.

(** The method [create_write_frame(origin, value)]; a [value] of [None]
    gives [None]. *)
Definition create_write_frame (self : t) (origin : byte)
  (value : option (list byte)) : exn + option crsf_frame :=
  match value with
  | None => inr None
  | Some value =>
      match z2b (num self) with
      | Some n =>
          match create_param_write_frame origin n value ORIGIN_ADDR with
          | Some f => inr (Some f)
          | None => inl ValueError
          end
      | None => inl ValueError
      end
  end.

End CRSFParam.

(** ** class CRSFDevice *)

Module CRSFDevice.

Definition POLL_PERIOD_S : float := 2%float.
Definition POLL_RESPONSE_SPEED_UP_FACTOR : float := 0x1.e666666666666p-1%float.

(** The attributes of a device.  [name] is the int 0 until a frame names
    the device; [param_ver] exists only when the device was made from a
    frame; a slot of [menu] is [None] or a parameter. *)
Record t := mk {
  origin : Z;
  last_seen : float;
  last_read_time : float;
  last_read_frame : Z;
  name : pyvalue;
  sn : Z;
  hwid : Z;
  fwid : Z;
  param_count : Z;
  param_version : Z;
  param_ver : option Z;
  menu : list (option CRSFParam.t)
}.

(** [__init__(frame, ...)]: [inl] is the exception of [frame.parse()] or
    the ValueError "frame of wrong type". *)
Definition init (frame : option crsf_frame) : exn + t :=
  match frame with
  | None =>
      inr (mk 0 PrimFloat.zero PrimFloat.zero 0 (VInt 0) 0 0 0 0 0 None
              (repeat None 1))
  | Some f =>
      match frame.type f with
      | None => inl IndexError
      | Some ty =>
          if ty =? CRSF.MSG_TYPE_DEVICE_INFO then
            match crsf_frame_parse f with
            | inl e => inl e
            | inr d =>
                match frame.origin f with
                | Some (Some o) =>
                    inr (mk o PrimFloat.zero PrimFloat.zero 0
                            (VStr (di_name d)) (di_sn d) (di_hw_id d)
                            (di_sw_id d) (di_param_count d) 0
                            (Some (di_version d))
                            (repeat None (Z.to_nat (di_param_count d + 1))))
                | _ => inl IndexError
                end
            end
          else inl ValueError
      end
  end.

(** [match(frame)]: [inl] is an exception of [frame.parse()], the
    ValueError "DEVICE_INFO frame expected", or the AttributeError of a
    device without [param_ver] (TypeError here). *)
Definition match_ (self : t) (f : crsf_frame) : exn + bool :=
  match frame.type f with
  | None => inl IndexError
  | Some ty =>
      if ty =? CRSF.MSG_TYPE_DEVICE_INFO then
        match frame.origin f with
        | Some (Some o) =>
            if o =? origin self then
              match crsf_frame_parse f with
              | inl e => inl e
              | inr d =>
                  match param_ver self with
                  | None => inl TypeError
                  | Some pv =>
                      inr (match name self with
                           | VStr nm =>
                               if list_eq_dec Z.eq_dec (di_name d) nm
                               then true else false
                           | VInt _ => false
                           end
                           && (di_sn d =? sn self)
                           && (di_hw_id d =? hwid self)
                           && (di_sw_id d =? fwid self)
                           && (di_param_count d =? param_count self)
                           && (di_version d =? pv))
                  end
              end
            else inr false
        | _ => inl IndexError
        end
      else inl ValueError
  end.

Definition set_menu v d := mk (origin d) (last_seen d) (last_read_time d) (last_read_frame d) (name d) (sn d) (hwid d) (fwid d) (param_count d) (param_version d) (param_ver d) v.
Definition set_last_read_time v d := mk (origin d) (last_seen d) v (last_read_frame d) (name d) (sn d) (hwid d) (fwid d) (param_count d) (param_version d) (param_ver d) (menu d).

(** [menu[i] = v] for an index in range. *)
Fixpoint set_nth {A} (l : list A) (i : nat) (v : A) : list A :=
  match l, i with
  | [], _ => []
  | _ :: r, O => v :: r
  | x :: r, S i' => x :: set_nth r i' v
  end.

(** [process_frame(frame)] at clock reading [now]: the frame goes to the
    parameter in the slot that its first payload byte names, when there is
    one. *)
Definition process_frame (self : t) (f : crsf_frame) (now : float)
  : outcome t :=
  match frame.type f, frame.payload f with
  | Some ty, Some payload =>
    if ty =? CRSF.MSG_TYPE_PARAM_ENTRY then
      match nth_error payload 0 with
      | None => Raised IndexError self
      | Some pn =>
        let param_num := b2z pn in
        let self :=
          if last_read_frame self =? param_num
          then set_last_read_time
                 (PrimFloat.sub (last_read_time self)
                    (PrimFloat.mul POLL_PERIOD_S POLL_RESPONSE_SPEED_UP_FACTOR))
                 self
          else self in
        match nth_error (menu self) (b2n pn) with
        | Some (Some param) =>
            match CRSFParam.process_frame param f now with
            | Returned param' =>
                Returned (set_menu (set_nth (menu self) (b2n pn) (Some param'))
                                   self)
            | Raised e param' =>
                Raised e (set_menu (set_nth (menu self) (b2n pn) (Some param'))
                                   self)
            end
        | _ => Returned self
        end
      end
    else Returned self
  | _, _ => Raised IndexError self
  end.

End CRSFDevice.

(** * Statements *)

(** ** Frames and streams *)

(** The invariants of a frame: SYNC first, total length LEN + 2, and the
    last byte the CRC8 of the bytes from offset 2 up to it. *)
Definition frame_invariant (f : crsf_frame) : Prop :=
  option_map b2z (nth_error (data f) 0) = Some CRSF.SYNC /\
  frame.len f = Some (Z.of_nat (length (data f))) /\
  option_map b2z (nth_error (data f) (length (data f) - 1))
  = Some (calc_crc8 (slice (data f) 2 (length (data f) - 1))).

(** A well-formed frame, as [create_frame] builds it from a non-empty
    body: the invariants, with at least the TYPE byte between LEN and
    CRC. *)
Definition valid_frame (f : crsf_frame) : Prop :=
  exists l body c,
    data f = Byte.xc8 :: l :: body ++ [c] /\
    b2n l = (length body + 1)%nat /\
    body <> [] /\
    b2z c = calc_crc8 body.

(** A byte that is not SYNC. *)
Definition nosync (b : byte) : Prop := b2z b <> CRSF.SYNC.

(** The bytes of a sequence of frames, back to back. *)
Definition stream (fs : list crsf_frame) : list byte := concat (map data fs).

(** What a parser holds between two calls while it reads [fs]: nothing,
    or a proper prefix of the first frame. *)
Definition pending (pre : list byte) (fs : list crsf_frame) : Prop :=
  pre = [] \/
  exists f fs' suf, fs = f :: fs' /\ data f = pre ++ suf /\ suf <> [].

(** The frame with bit [k] of its last byte, the CRC, flipped. *)
Definition flip_crc_bit (k : nat) (f : crsf_frame) : option crsf_frame :=
  match rev (data f) with
  | c :: r =>
      option_map (fun c' => mk_frame (rev r ++ [c']))
                 (z2b (Z.lxor (b2z c) (Z.shiftl 1 (Z.of_nat k))))
  | [] => None
  end.

(** The PING frame of the protocol, destination BROADCAST, origin REMOTE,
    and a PING frame whose addresses are FC and 0xFF. *)
Definition ping_frame : crsf_frame :=
  mk_frame [Byte.xc8; Byte.x04; Byte.x28; Byte.x00; Byte.xea; Byte.x54].

Definition ping_fc_frame : crsf_frame :=
  mk_frame [Byte.xc8; Byte.x04; Byte.x28; Byte.xc8; Byte.xff; Byte.x61].

(** ** Parameter entries *)

(** A frame of type PARAM_ENTRY whose payload is [payload]. *)
Definition carries (f : crsf_frame) (payload : list byte) : Prop :=
  frame.type f = Some CRSF.MSG_TYPE_PARAM_ENTRY /\
  frame.payload f = Some payload.

(** The payloads of an entry sent in chunks: chunk [i] of [es] carries
    [param_num], the number of chunks after it, and its share [es[i]] of
    the entry bytes. *)
Fixpoint chunk_payloads (param_num : byte) (es : list (list byte))
  : option (list (list byte)) :=
  match es with
  | [] => Some []
  | e :: r =>
      match z2b (Z.of_nat (length r)), chunk_payloads param_num r with
      | Some c, Some ps => Some ((param_num :: c :: e) :: ps)
      | _, _ => None
      end
  end.

(** The PARAM_ENTRY frame a device at address TX (0xEE) sends to the
    address FC (0xC8) with this payload. *)
Definition param_entry_frame (payload : list byte) : option crsf_frame :=
  create_frame (Byte.x2b :: Byte.xc8 :: Byte.xee :: payload).

(** The same frame, for payloads short enough to fit one. *)
Definition entry_frame (payload : list byte) : crsf_frame :=
  match param_entry_frame payload with
  | Some f => f
  | None => mk_frame []
  end.

(** [process_frame] on the frame built from [payload]. *)
Definition deliver (self : CRSFParam.t) (payload : list byte) (now : float)
  : option (outcome CRSFParam.t) :=
  option_map (fun f => CRSFParam.process_frame self f now)
             (param_entry_frame payload).

(** A FLOAT parameter with [decimal_point = 2], [min = 0], [max = 1000]. *)
Definition float_param : CRSFParam.t :=
  CRSFParam.set_max (Some 1000)
    (CRSFParam.set_min (Some 0)
      (CRSFParam.set_decimal_point (Some 2)
        (CRSFParam.set_type (Some CRSFParam.FLOAT_TYPE)
          (CRSFParam.init 1 PrimFloat.zero)))).

(** The float that the literal [3.14] denotes. *)
Definition f3_14 : float := 0x1.91eb851eb851fp+1%float.

(** A PPM payload whose sixteen 11-bit words are 100, 200, ..., 1600. *)
Definition ppm_payload : list byte :=
  [Byte.x64; Byte.x40; Byte.x06; Byte.x4b; Byte.x20; Byte.x43; Byte.x1f;
   Byte.x2c; Byte.xf1; Byte.x0a; Byte.x64; Byte.x84; Byte.x43; Byte.x1f;
   Byte.x13; Byte.x61; Byte.x49; Byte.x51; Byte.xbc; Byte.x72; Byte.x17;
   Byte.xc8].

(** The entry of a FLOAT parameter named Gain, child of folder 0: value
    314, min 0, max 1000, default 100, decimal point 2, step 1, unit dB;
    cut in three. *)
Definition float_entry_chunks : list (list byte) :=
  [ [Byte.x00; Byte.x08; Byte.x47; Byte.x61; Byte.x69; Byte.x6e; Byte.x00;
     Byte.x00; Byte.x00];
    [Byte.x01; Byte.x3a; Byte.x00; Byte.x00; Byte.x00; Byte.x00;
     Byte.x00; Byte.x00; Byte.x03; Byte.xe8; Byte.x00; Byte.x00];
    [Byte.x00; Byte.x64; Byte.x02; Byte.x00; Byte.x00; Byte.x00; Byte.x01;
     Byte.x64; Byte.x42; Byte.x00] ].

(** The payloads of its three chunks, for parameter 1. *)
Definition float_chunk0 : list byte :=
  Byte.x01 :: Byte.x02 :: nth 0 float_entry_chunks [].
Definition float_chunk1 : list byte :=
  Byte.x01 :: Byte.x01 :: nth 1 float_entry_chunks [].
Definition float_chunk2 : list byte :=
  Byte.x01 :: Byte.x00 :: nth 2 float_entry_chunks [].

(** Parameter 1 after its chunk 0 alone has arrived. *)
Definition param_after_chunk0 : CRSFParam.t :=
  CRSFParam.set_chunks [Some float_chunk0; None; None]
    (CRSFParam.init 1 PrimFloat.zero).

(** Parameter 1 once the FLOAT entry is decoded at clock reading [now]. *)
Definition float_decoded (now : float) : CRSFParam.t :=
  CRSFParam.mk 1 (Some 0) (Some 8) [71; 97; 105; 110] [] (Some (VInt 314)) 0
    (Some 0) (Some 100) (Some 1000) (Some [100; 66]) None [] None (Some 2)
    (Some 1) None None None PrimFloat.zero now.

(** A TEXT_SELECTION entry with three bytes, not four, after the NUL of its
    options; a STRING entry that ends at the NUL of its value; an entry
    whose name has no NUL. *)
Definition selection_short : list byte :=
  [Byte.x01; Byte.x00; Byte.x00; Byte.x09; Byte.x4d; Byte.x00;
   Byte.x61; Byte.x3b; Byte.x62; Byte.x00; Byte.x01; Byte.x00; Byte.x01].

Definition string_short : list byte :=
  [Byte.x01; Byte.x00; Byte.x00; Byte.x0a; Byte.x4e; Byte.x00;
   Byte.x76; Byte.x00].

Definition name_unterminated : list byte :=
  [Byte.x01; Byte.x00; Byte.x00; Byte.x09; Byte.x4d; Byte.x61].

(** The calls that deliver the FLOAT entry to parameter 1 in three chunks,
    and the frame that delivers it whole. *)
Definition float_chunk_calls (t0 t1 now : float) : list (crsf_frame * float) :=
  [ (entry_frame float_chunk0, t0);
    (entry_frame float_chunk1, t1);
    (entry_frame float_chunk2, now) ].

Definition float_single_frame : crsf_frame :=
  entry_frame (Byte.x01 :: Byte.x00 :: concat float_entry_chunks).

(** The bytes of a FLOAT entry, from payload offset 2 on: parent folder,
    type byte, name, NUL, four words, decimal point, step size, unit, NUL,
    and whatever follows. *)
Definition float_entry (pf dt : byte) (name : list byte)
  (v mn mx df : byte * byte * byte * byte) (dp : byte)
  (st : byte * byte * byte * byte) (unit rest : list byte) : list byte :=
  let word (w : byte * byte * byte * byte) :=
    let '(w0, w1, w2, w3) := w in [w0; w1; w2; w3] in
  pf :: dt :: name ++ Byte.x00 ::
    word v ++ word mn ++ word mx ++ word df ++ dp :: word st ++
    unit ++ Byte.x00 :: rest.

(** The unsigned value of a word, which is what [decode_int32] returns. *)
Definition word_value (w : byte * byte * byte * byte) : Z :=
  let '(w0, w1, w2, w3) := w in
  b2z w0 * 2 ^ 24 + b2z w1 * 2 ^ 16 + b2z w2 * 2 ^ 8 + b2z w3.

(** ** Further statements *)

(** A stream that holds the frames [fs] in order, each after a run of
    other bytes. *)
Fixpoint interleave (js : list (list byte)) (fs : list crsf_frame)
  : list byte :=
  match js, fs with
  | j :: js', f :: fs' => j ++ data f ++ interleave js' fs'
  | _, _ => []
  end.

(** A buffer on which the loop of [digest] has nothing to do: fewer than
    four bytes, or a SYNC byte and a LEN byte that announce more bytes than
    are there. *)
Definition quiescent (buf : list byte) : Prop :=
  (length buf < 4)%nat \/
  exists b l r,
    buf = b :: l :: r /\ b2z b = CRSF.SYNC /\ (length buf < b2n l + 2)%nat.

(** The values of a byte. *)
Definition byte_values : list Z := map Z.of_nat (seq 0 256).

(** The two facts about one [_calc] step on bytes that the checksum
    arguments rest on, as tables over all pairs of byte values: the byte
    that is shifted in is added, bit by bit, to what the step makes of
    the old value with a zero byte; and the step with a zero byte sends
    different values to different values. *)
Definition calc_adds_byte (poly : Z) : bool :=
  forallb (fun v =>
    forallb (fun b =>
      crsf_crc8._calc poly v b =? Z.lxor (crsf_crc8._calc poly v 0) b)
      byte_values) byte_values.

Definition calc_separates (poly : Z) : bool :=
  forallb (fun v =>
    forallb (fun w =>
      negb (crsf_crc8._calc poly v 0 =? crsf_crc8._calc poly w 0) || (v =? w))
      byte_values) byte_values.

(** The bytes of a frame: SYNC, LEN, the body, CRC. *)
Definition frame_bytes (l : byte) (body : list byte) (c : byte) : list byte :=
  Byte.xc8 :: l :: body ++ [c].

(** The four bytes of a big-endian word. *)
Definition word_bytes (w : byte * byte * byte * byte) : list byte :=
  let '(w0, w1, w2, w3) := w in [w0; w1; w2; w3].

(** The payload of a DEVICE_INFO frame: the name, NUL, serial number,
    hardware id, software id, parameter count, parameter version. *)
Definition device_info_payload (name : list byte)
  (sn hw sw : byte * byte * byte * byte) (count version : byte) : list byte :=
  name ++ Byte.x00 :: word_bytes sn ++ word_bytes hw ++ word_bytes sw
       ++ [count; version].

(** The code points of "Agent Python". *)
Definition agent_python : str :=
  [65; 103; 101; 110; 116; 32; 80; 121; 116; 104; 111; 110].

(** The DEVICE_INFO frame a device at address TX (0xEE) sends to the
    address REMOTE (0xEA) with this payload, for payloads that fit one. *)
Definition device_info_frame (payload : list byte) : crsf_frame :=
  match create_frame (Byte.x29 :: Byte.xea :: Byte.xee :: payload) with
  | Some f => f
  | None => mk_frame []
  end.

(** * Properties *)

(** ** Bytes *)

Lemma b2z_range (b : byte) : 0 <= b2z b < 256.
Proof.
  unfold b2z. pose proof (Byte.to_N_bounded b). lia.
Qed.

Lemma b2z_b2n (b : byte) : b2z b = Z.of_nat (b2n b).
Proof.
  unfold b2z, b2n. now rewrite N_nat_Z.
Qed.

Lemma z2b_b2z (z : Z) (b : byte) : z2b z = Some b -> b2z b = z.
Proof.
  unfold z2b, b2z. destruct (Z.ltb_spec z 0); [discriminate|].
  intros E. apply Byte.to_of_N in E. rewrite E. lia.
Qed.

Lemma z2b_some (z : Z) : 0 <= z < 256 -> exists b, z2b z = Some b.
Proof.
  intros Hz. unfold z2b. destruct (Z.ltb_spec z 0); [lia|].
  destruct (Byte.of_N (Z.to_N z)) eqn:E; [eauto|].
  apply Byte.of_N_None_iff in E. lia.
Qed.

Lemma b2z_z2b (b : byte) : z2b (b2z b) = Some b.
Proof.
  unfold z2b, b2z. destruct (Z.ltb_spec (Z.of_N (Byte.to_N b)) 0); [lia|].
  rewrite N2Z.id. apply Byte.of_to_N.
Qed.

(** ** CRC8 *)

Lemma _calc_range (poly val x : Z) : 0 <= crsf_crc8._calc poly val x < 256.
Proof.
  unfold crsf_crc8._calc.
  change 0xFF with (Z.ones 8). rewrite Z.land_ones by lia.
  apply Z.mod_pos_bound. lia.
Qed.

Lemma calc_crc8_range (d : list byte) : 0 <= calc_crc8 d < 256.
Proof.
  unfold calc_crc8, crsf_crc8.finish. apply _calc_range.
Qed.

(** The reference value of the protocol: the CRC of a PING body. *)
Example calc_crc8_ping :
  calc_crc8 [Byte.x28; Byte.x00; Byte.xea] = 0x54.
Proof. reflexivity. Qed.

(** ** Lists *)

Lemma firstn_app_exact {A} (l r : list A) : firstn (length l) (l ++ r) = l.
Proof.
  rewrite firstn_app, Nat.sub_diag, firstn_all. simpl. apply app_nil_r.
Qed.

Lemma skipn_app_exact {A} (l r : list A) : skipn (length l) (l ++ r) = r.
Proof.
  rewrite skipn_app, Nat.sub_diag, skipn_all. reflexivity.
Qed.

(** ** The stream parser *)

Lemma digest_loop_S (fuel : nat) (buf : list byte) :
  parser.digest_loop (S fuel) buf =
  if (length buf <? 4)%nat then Some ([], buf) else
  let buf := parser.discard_to_sync buf in
  match nth_error buf 1 with
  | Some l =>
      let frame_len := (b2n l + 2)%nat in
      if (frame_len <=? length buf)%nat then
        if match nth_error buf (frame_len - 1) with
           | Some c => b2z c =? calc_crc8 (slice buf 2 (frame_len - 1))
           | None => false
           end
        then
          match parser.digest_loop fuel (skipn frame_len buf) with
          | Some (fs, rest) => Some (mk_frame (firstn frame_len buf) :: fs, rest)
          | None => None
          end
        else parser.digest_loop fuel (skipn 1 buf)
      else Some ([], buf)
  | None => Some ([], buf)
  end.
Proof. reflexivity. Qed.

Lemma digest_loop_short (fuel : nat) (buf : list byte) :
  (length buf < 4)%nat -> parser.digest_loop fuel buf = Some ([], buf).
Proof.
  intros H. destruct fuel; simpl;
    destruct (Nat.ltb_spec (length buf) 4); auto; lia.
Qed.

Lemma discard_to_sync_length (buf : list byte) :
  (length (parser.discard_to_sync buf) <= length buf)%nat.
Proof.
  induction buf as [|b r IH]; simpl; [lia|].
  destruct (b2z b =? CRSF.SYNC); simpl; lia.
Qed.

Lemma discard_to_sync_head (buf : list byte) :
  match parser.discard_to_sync buf with
  | [] => True
  | b :: _ => b2z b = CRSF.SYNC
  end.
Proof.
  induction buf as [|b r IH]; simpl; [exact I|].
  destruct (Z.eqb_spec (b2z b) CRSF.SYNC); auto.
Qed.

Lemma discard_to_sync_noise (n r : list byte) :
  Forall (fun b => b2z b <> CRSF.SYNC) n ->
  parser.discard_to_sync (n ++ r) = parser.discard_to_sync r.
Proof.
  induction 1 as [|b n Hb _ IH]; simpl; [reflexivity|].
  destruct (Z.eqb_spec (b2z b) CRSF.SYNC); [contradiction|exact IH].
Qed.

Lemma discard_to_sync_sync (b : byte) (r : list byte) :
  b2z b = CRSF.SYNC -> parser.discard_to_sync (b :: r) = b :: r.
Proof.
  intros H. simpl. now rewrite H.
Qed.

(** The loop ends within as many rounds as the buffer has bytes, and what
    it yields satisfies the frame invariants. *)
Lemma digest_loop_inv (fuel : nat) :
  forall buf, (length buf <= fuel)%nat ->
  exists fs rest,
    parser.digest_loop fuel buf = Some (fs, rest) /\
    Forall frame_invariant fs /\
    (length rest <= length buf)%nat.
Proof.
  induction fuel as [|fuel IH]; intros buf Hlen.
  - exists [], buf. rewrite digest_loop_short by lia.
    split; [reflexivity|]. split; [constructor|lia].
  - rewrite digest_loop_S.
    destruct (Nat.ltb_spec (length buf) 4) as [|H4];
      [exists [], buf; split; [reflexivity|]; split; [constructor|lia]|].
    pose proof (discard_to_sync_length buf) as Hd.
    pose proof (discard_to_sync_head buf) as Hh.
    cbv zeta.
    destruct (parser.discard_to_sync buf) as [|b0 [|l r]] eqn:Eb;
      simpl nth_error; cbv beta iota.
    + exists [], []. split; [reflexivity|]. split; [constructor|simpl; lia].
    + exists [], [b0]. split; [reflexivity|]. split; [constructor|simpl in *; lia].
    + remember (b0 :: l :: r) as buf' eqn:Ebuf'.
      destruct (Nat.leb_spec (b2n l + 2) (length buf')) as [Hfl|Hfl].
      2:{ exists [], buf'. split; [reflexivity|]. split; [constructor|lia]. }
      destruct (nth_error buf' (b2n l + 2 - 1)) as [c|] eqn:Ec.
      2:{ destruct (IH (skipn 1 buf')) as (fs & rest & E & Hf & Hr).
          { rewrite length_skipn. subst buf'. simpl in *. lia. }
          exists fs, rest. repeat split; auto.
          rewrite length_skipn in Hr. lia. }
      destruct (Z.eqb_spec (b2z c) (calc_crc8 (slice buf' 2 (b2n l + 2 - 1))))
        as [Hcrc|Hcrc].
      * destruct (IH (skipn (b2n l + 2) buf')) as (fs & rest & E & Hf & Hr).
        { rewrite length_skipn. lia. }
        rewrite E. eexists _, rest. split; [reflexivity|]. split.
        -- constructor; [|exact Hf].
           assert (Hlen' : length (firstn (b2n l + 2) buf') = (b2n l + 2)%nat)
             by (rewrite length_firstn; lia).
           unfold frame_invariant, frame.len. simpl data. rewrite Hlen'.
           split; [|split].
           ++ subst buf'. rewrite Nat.add_comm. simpl. now rewrite Hh.
           ++ subst buf'. rewrite Nat.add_comm. simpl.
              f_equal. rewrite b2z_b2n. lia.
           ++ rewrite nth_error_firstn.
              destruct (Nat.ltb_spec (b2n l + 2 - 1) (b2n l + 2)); [|lia].
              rewrite Ec. simpl. f_equal. rewrite Hcrc. f_equal.
              unfold slice. rewrite skipn_firstn_comm, firstn_firstn.
              f_equal. lia.
        -- rewrite length_skipn in Hr. lia.
      * destruct (IH (skipn 1 buf')) as (fs & rest & E & Hf & Hr).
        { rewrite length_skipn. subst buf'. simpl in *. lia. }
        exists fs, rest. repeat split; auto.
        rewrite length_skipn in Hr. lia.
Qed.

Lemma valid_frame_length (f : crsf_frame) :
  valid_frame f -> (4 <= length (data f))%nat.
Proof.
  intros (l & body & c & Hd & _ & Hne & _). rewrite Hd. simpl.
  rewrite length_app. destruct body; [congruence|]. simpl. lia.
Qed.

(** A round of the loop on a buffer that starts with a well-formed frame
    yields that frame and goes on with what follows it. *)
Lemma digest_loop_frame (fuel : nat) (f : crsf_frame) (rest : list byte) :
  valid_frame f ->
  parser.digest_loop (S fuel) (data f ++ rest) =
  match parser.digest_loop fuel rest with
  | Some (fs, r) => Some (f :: fs, r)
  | None => None
  end.
Proof.
  intros Hv. pose proof (valid_frame_length f Hv) as H4.
  destruct Hv as (l & body & c & Hd & Hl & Hne & Hc).
  destruct f as [d]. cbn [data] in *. subst d.
  assert (Hlen : length (Byte.xc8 :: l :: body ++ [c]) = (b2n l + 2)%nat).
  { simpl. rewrite length_app. simpl. lia. }
  change ((Byte.xc8 :: l :: body ++ [c]) ++ rest)
    with (Byte.xc8 :: l :: (body ++ [c]) ++ rest).
  assert (Hlen' : length (Byte.xc8 :: l :: (body ++ [c]) ++ rest)
                  = (b2n l + 2 + length rest)%nat).
  { simpl. rewrite !length_app. simpl. lia. }
  rewrite digest_loop_S.
  destruct (Nat.ltb_spec (length (Byte.xc8 :: l :: (body ++ [c]) ++ rest)) 4)
    as [Hs|_]; [lia|].
  cbv zeta. rewrite discard_to_sync_sync by reflexivity.
  simpl nth_error. cbv beta iota.
  destruct (Nat.leb_spec (b2n l + 2)
              (length (Byte.xc8 :: l :: (body ++ [c]) ++ rest))) as [_|Hs];
    [|lia].
  assert (Enth : nth_error (Byte.xc8 :: l :: (body ++ [c]) ++ rest)
                           (b2n l + 2 - 1) = Some c).
  { replace (b2n l + 2 - 1)%nat with (S (S (length body))) by lia. simpl.
    rewrite <- app_assoc. rewrite nth_error_app2 by lia.
    now rewrite Nat.sub_diag. }
  assert (Esl : slice (Byte.xc8 :: l :: (body ++ [c]) ++ rest) 2
                      (b2n l + 2 - 1) = body).
  { unfold slice. replace (b2n l + 2 - 1 - 2)%nat with (length body) by lia.
    simpl. rewrite <- app_assoc. apply firstn_app_exact. }
  rewrite Enth, Esl, Hc, Z.eqb_refl, <- Hlen.
  change (Byte.xc8 :: l :: (body ++ [c]) ++ rest)
    with ((Byte.xc8 :: l :: body ++ [c]) ++ rest).
  now rewrite skipn_app_exact, firstn_app_exact.
Qed.

(** A buffer that holds a proper prefix of a well-formed frame is left as
    it is. *)
Lemma digest_loop_prefix (fuel : nat) (g : crsf_frame) (pre suf : list byte) :
  valid_frame g -> data g = pre ++ suf -> suf <> [] ->
  parser.digest_loop (S fuel) pre = Some ([], pre).
Proof.
  intros (l & body & c & Hd & Hl & Hne & Hc) Hg Hsuf.
  rewrite digest_loop_S.
  destruct (Nat.ltb_spec (length pre) 4) as [|H4]; [reflexivity|].
  assert (Hlen : length (data g) = (b2n l + 2)%nat).
  { rewrite Hd. simpl. rewrite length_app. simpl. lia. }
  assert (Hlt : (length pre < b2n l + 2)%nat).
  { rewrite <- Hlen, Hg, length_app. destruct suf; [congruence|]. simpl. lia. }
  rewrite Hd in Hg.
  destruct pre as [|p0 [|p1 pre]]; simpl in H4; try lia.
  simpl in Hg. injection Hg as <- <- _.
  cbv zeta. rewrite discard_to_sync_sync by reflexivity.
  simpl nth_error. cbv beta iota.
  destruct (Nat.leb_spec (b2n l + 2) (length (Byte.xc8 :: l :: pre)));
    [lia|reflexivity].
Qed.

Lemma stream_cons (f : crsf_frame) (fs : list crsf_frame) :
  stream (f :: fs) = data f ++ stream fs.
Proof. reflexivity. Qed.

(** Whole frames followed by a pending prefix: the frames are yielded and
    the prefix is kept. *)
Lemma digest_loop_stream (fs : list crsf_frame) :
  forall fuel pre gs,
    Forall valid_frame fs -> Forall valid_frame gs -> pending pre gs ->
    (length fs < fuel)%nat ->
    parser.digest_loop fuel (stream fs ++ pre) = Some (fs, pre).
Proof.
  induction fs as [|f fs IH]; intros fuel pre gs Hfs Hgs Hp Hfuel.
  - simpl. destruct fuel as [|fuel]; [lia|].
    destruct Hp as [->|(g & gs' & suf & -> & Hg & Hsuf)].
    + apply digest_loop_short. simpl. lia.
    + inversion Hgs; subst. eapply digest_loop_prefix; eauto.
  - destruct fuel as [|fuel]; [simpl in Hfuel; lia|].
    inversion Hfs; subst.
    rewrite stream_cons, <- app_assoc, digest_loop_frame by assumption.
    rewrite (IH fuel pre gs) by (auto; simpl in Hfuel; lia).
    reflexivity.
Qed.

Lemma stream_length (fs : list crsf_frame) :
  Forall valid_frame fs -> (length fs <= length (stream fs))%nat.
Proof.
  induction 1 as [|f fs Hf _ IH]; simpl; [lia|].
  rewrite stream_cons, length_app.
  pose proof (valid_frame_length f Hf). lia.
Qed.

(** A prefix of a stream of frames is some of the frames, whole, and a
    pending prefix of the next. *)
Lemma stream_prefix (fs : list crsf_frame) :
  forall q rest,
    Forall valid_frame fs -> q ++ rest = stream fs ->
    exists fs1 fs2 pre,
      fs = fs1 ++ fs2 /\ q = stream fs1 ++ pre /\
      pending pre fs2 /\ pre ++ rest = stream fs2.
Proof.
  induction fs as [|f fs IH]; intros q rest Hfs E.
  - apply app_eq_nil in E as [-> ->].
    exists [], [], []. repeat split; auto. now left.
  - inversion Hfs as [|? ? Hf Hfs']; subst.
    rewrite stream_cons in E.
    apply app_eq_app in E as [m [[Eq Em]|[Ef Er]]].
    + destruct (IH m rest Hfs' (eq_sym Em)) as (fs1 & fs2 & pre & -> & -> & Hp & Ep).
      exists (f :: fs1), fs2, pre. repeat split; auto.
      rewrite Eq, stream_cons. now rewrite app_assoc.
    + destruct m as [|m0 m].
      * rewrite app_nil_r in Ef. simpl in Er. subst rest.
        destruct (IH [] (stream fs) Hfs' eq_refl)
          as (fs1 & fs2 & pre & -> & Eq & Hp & Ep).
        exists (f :: fs1), fs2, pre. repeat split; auto.
        rewrite stream_cons, <- app_assoc, <- Eq, app_nil_r. now symmetry.
      * exists [], (f :: fs), q. repeat split; auto.
        -- right. exists f, fs, (m0 :: m). repeat split; auto. discriminate.
        -- rewrite stream_cons, Ef, Er. now rewrite app_assoc.
Qed.

(** Feeding a stream of well-formed frames in pieces, from a buffer that
    holds the pieces read so far. *)
Lemma feed_stream (pieces : list (list byte)) :
  forall fs pre s,
    Forall valid_frame fs -> pending pre fs ->
    pre ++ concat pieces = stream fs ->
    parser.feed (mk_parser pre s) pieces = Some (fs, mk_parser [] s).
Proof.
  induction pieces as [|d ds IH]; intros fs pre s Hfs Hp E.
  - simpl in *. rewrite app_nil_r in E.
    destruct Hp as [->|(f & fs' & suf & -> & Hf & Hsuf)].
    + destruct fs as [|f fs]; [reflexivity|].
      inversion Hfs; subst. pose proof (valid_frame_length f H1).
      apply (f_equal (@length byte)) in E.
      rewrite stream_cons, length_app in E. simpl in E. lia.
    + exfalso. rewrite stream_cons, Hf, <- app_assoc in E.
      apply (f_equal (@length byte)) in E. rewrite !length_app in E.
      destruct suf; [congruence|]. simpl in E. lia.
  - simpl in E. rewrite app_assoc in E.
    destruct (stream_prefix fs (pre ++ d) (concat ds) Hfs E)
      as (fs1 & fs2 & pre' & -> & Eq & Hp' & E').
    apply Forall_app in Hfs as [Hfs1 Hfs2].
    simpl. unfold parser.digest. simpl pdata. rewrite Eq.
    rewrite (digest_loop_stream fs1 _ pre' fs2) by
      (auto; rewrite length_app; pose proof (stream_length fs1 Hfs1); lia).
    simpl silent. rewrite (IH fs2 pre' s) by auto.
    reflexivity.
Qed.

(** ** create_frame *)

Lemma create_frame_valid (body : list byte) (f : crsf_frame) :
  create_frame body = Some f -> body <> [] -> valid_frame f.
Proof.
  unfold create_frame. intros E Hne.
  destruct (z2b (Z.of_nat (length body) + 2 - 1)) as [l|] eqn:El; [|discriminate].
  destruct (z2b (calc_crc8 body)) as [c|] eqn:Ec; [|discriminate].
  injection E as <-. exists l, body, c.
  apply z2b_b2z in El, Ec. rewrite b2z_b2n in El.
  repeat split; auto. lia.
Qed.

Lemma create_frame_some (body : list byte) :
  (length body <= 254)%nat -> exists f, create_frame body = Some f.
Proof.
  intros H. unfold create_frame.
  destruct (z2b_some (Z.of_nat (length body) + 2 - 1)) as [l ->]; [lia|].
  destruct (z2b_some (calc_crc8 body) (calc_crc8_range body)) as [c ->].
  eauto.
Qed.

Example ping_frame_created :
  create_frame [Byte.x28; Byte.x00; Byte.xea] = Some ping_frame.
Proof. reflexivity. Qed.

Example ping_fc_frame_created :
  create_frame [Byte.x28; Byte.xc8; Byte.xff] = Some ping_fc_frame.
Proof. reflexivity. Qed.

(** ** Resynchronisation *)

Lemma digest_loop_noise (fuel : nat) (n r : list byte) :
  Forall nosync n -> (4 <= length r)%nat ->
  parser.digest_loop (S fuel) (n ++ r) = parser.digest_loop (S fuel) r.
Proof.
  intros Hn Hr. rewrite !digest_loop_S.
  destruct (Nat.ltb_spec (length (n ++ r)) 4) as [Hs|_].
  { rewrite length_app in Hs. lia. }
  destruct (Nat.ltb_spec (length r) 4) as [Hs|_]; [lia|].
  cbv zeta. now rewrite discard_to_sync_noise.
Qed.

Lemma digest_loop_all_noise (fuel : nat) (t : list byte) :
  Forall nosync t ->
  parser.digest_loop (S fuel) t
  = Some ([], if (length t <? 4)%nat then t else []).
Proof.
  intros Ht. rewrite digest_loop_S.
  destruct (length t <? 4)%nat; [reflexivity|].
  cbv zeta. rewrite <- (app_nil_r t), discard_to_sync_noise by assumption.
  reflexivity.
Qed.

(** Noise without a SYNC byte, partly buffered and partly in the data
    fed, followed by a well-formed frame. *)
Lemma digest_noise_frame (s : bool) (n1 n2 : list byte) (f : crsf_frame) :
  Forall nosync n1 -> Forall nosync n2 -> valid_frame f ->
  parser.digest (mk_parser n1 s) (n2 ++ data f)
  = Some ([f], mk_parser [] s).
Proof.
  intros H1 H2 Hf. unfold parser.digest. cbn [pdata silent].
  rewrite app_assoc, digest_loop_noise;
    [|apply Forall_app; auto|now apply valid_frame_length].
  rewrite <- (app_nil_r (data f)) at 2.
  rewrite digest_loop_frame by assumption.
  now rewrite digest_loop_short by (simpl; lia).
Qed.

Lemma lxor_bit_neq (a : Z) (k : nat) : Z.lxor a (Z.shiftl 1 (Z.of_nat k)) <> a.
Proof.
  intros E.
  assert (H : Z.lxor a (Z.lxor a (Z.shiftl 1 (Z.of_nat k))) = Z.lxor a a)
    by now rewrite E.
  rewrite <- Z.lxor_assoc, Z.lxor_nilpotent, Z.lxor_0_l in H.
  rewrite Z.shiftl_1_l in H.
  pose proof (Z.pow_pos_nonneg 2 (Z.of_nat k)). lia.
Qed.

(** The shape of a well-formed frame after a bit of its CRC is flipped. *)
Lemma flip_crc_bit_shape (k : nat) (f f' : crsf_frame) :
  valid_frame f -> flip_crc_bit k f = Some f' ->
  exists l body c',
    data f' = Byte.xc8 :: l :: body ++ [c'] /\
    b2n l = (length body + 1)%nat /\
    body <> [] /\
    b2z c' <> calc_crc8 body.
Proof.
  intros (l & body & c & Hd & Hl & Hne & Hc) E.
  unfold flip_crc_bit in E. rewrite Hd in E.
  change (Byte.xc8 :: l :: body ++ [c])
    with ([Byte.xc8; l] ++ body ++ [c]) in E.
  rewrite app_assoc, rev_unit in E.
  destruct (z2b (Z.lxor (b2z c) (Z.shiftl 1 (Z.of_nat k)))) as [c'|] eqn:Ec';
    [|discriminate].
  injection E as <-. exists l, body, c'. cbn [data].
  rewrite !rev_app_distr, rev_involutive. simpl. repeat split; auto.
  apply z2b_b2z in Ec'. rewrite Ec', <- Hc. apply lxor_bit_neq.
Qed.

(** A round of the loop on a buffer that holds a frame with a wrong CRC
    drops one byte. *)
Lemma digest_loop_bad_crc (fuel : nat) (l c : byte) (body : list byte) :
  b2n l = (length body + 1)%nat -> b2z c <> calc_crc8 body ->
  (4 <= length (Byte.xc8 :: l :: body ++ [c]))%nat ->
  parser.digest_loop (S fuel) (Byte.xc8 :: l :: body ++ [c])
  = parser.digest_loop fuel (l :: body ++ [c]).
Proof.
  intros Hl Hc H4.
  assert (Hlen : length (Byte.xc8 :: l :: body ++ [c]) = (b2n l + 2)%nat).
  { simpl. rewrite length_app. simpl. lia. }
  rewrite digest_loop_S.
  destruct (Nat.ltb_spec (length (Byte.xc8 :: l :: body ++ [c])) 4); [lia|].
  cbv zeta. rewrite discard_to_sync_sync by reflexivity.
  simpl nth_error. cbv beta iota.
  destruct (Nat.leb_spec (b2n l + 2) (length (Byte.xc8 :: l :: body ++ [c])));
    [|lia].
  assert (Enth : nth_error (Byte.xc8 :: l :: body ++ [c]) (b2n l + 2 - 1)
                 = Some c).
  { replace (b2n l + 2 - 1)%nat with (S (S (length body))) by lia. simpl.
    rewrite nth_error_app2 by lia. now rewrite Nat.sub_diag. }
  assert (Esl : slice (Byte.xc8 :: l :: body ++ [c]) 2 (b2n l + 2 - 1) = body).
  { unfold slice. replace (b2n l + 2 - 1 - 2)%nat with (length body) by lia.
    simpl. apply firstn_app_exact. }
  rewrite Enth, Esl.
  destruct (Z.eqb_spec (b2z c) (calc_crc8 body)); [contradiction|reflexivity].
Qed.

(** ** The claims on the stream parser *)

(** C10.  [digest] always returns, and every frame it yields satisfies the
    frame invariants: the first byte is SYNC (0xC8), the length is the LEN
    byte plus 2, and the last byte is the CRC8 (polynomial 0xD5, zero
    start, one extra zero byte folded at the end) of the bytes from offset
    2 up to the last. *)
Theorem digest_frames_invariant (p : crsf_parser) (d : list byte) :
  exists fs p',
    parser.digest p d = Some (fs, p') /\ Forall frame_invariant fs.
Proof.
  unfold parser.digest.
  destruct (digest_loop_inv (S (length (pdata p ++ d))) (pdata p ++ d))
    as (fs & rest & E & Hf & _); [lia|].
  rewrite E. eauto.
Qed.

(** C4.  Well-formed frames round-trip through the parser however the
    stream is cut: for bodies that are non-empty and at most 254 bytes
    long, [create_frame] builds a frame from each, and feeding the bytes of
    these frames, back to back and split into consecutive pieces in any
    way, to a fresh parser yields exactly these frames, in order, and
    leaves the buffer empty.  One body is the case of a single frame. *)
Theorem digest_roundtrip (silent : bool) (bodies : list (list byte)) :
  Forall (fun body => body <> [] /\ (length body <= 254)%nat) bodies ->
  exists fs,
    Forall2 (fun body f => create_frame body = Some f) bodies fs /\
    forall pieces,
      concat pieces = stream fs ->
      parser.feed (parser.init silent) pieces
      = Some (fs, parser.init silent).
Proof.
  intros Hb.
  assert (H : exists fs,
             Forall2 (fun body f => create_frame body = Some f) bodies fs /\
             Forall valid_frame fs).
  { induction Hb as [|body bodies [Hne Hlen] _ (fs & H2 & Hv)].
    - exists []. split; constructor.
    - destruct (create_frame_some body Hlen) as [f Ef].
      exists (f :: fs). split; constructor; auto.
      eapply create_frame_valid; eauto. }
  destruct H as (fs & H2 & Hv). exists fs. split; [exact H2|].
  intros pieces E. apply feed_stream; auto. now left.
Qed.

Lemma digest_roundtrip_witness :
  exists fs,
    Forall2 (fun body f => create_frame body = Some f)
            [[Byte.x28; Byte.x00; Byte.xea]; [Byte.x28; Byte.xc8; Byte.xff]]
            fs /\
    forall pieces,
      concat pieces = stream fs ->
      parser.feed (parser.init true) pieces = Some (fs, parser.init true).
Proof.
  apply (digest_roundtrip true
           [[Byte.x28; Byte.x00; Byte.xea]; [Byte.x28; Byte.xc8; Byte.xff]]).
  repeat constructor; simpl; try discriminate; lia.
Defined.

(** The frames of the witness, cut in the middle of each. *)
Example digest_roundtrip_pieces :
  parser.feed (parser.init true)
    [ [Byte.xc8; Byte.x04; Byte.x28];
      [Byte.x00; Byte.xea; Byte.x54; Byte.xc8; Byte.x04];
      [];
      [Byte.x28; Byte.xc8; Byte.xff; Byte.x61] ]
  = Some ([ping_frame; ping_fc_frame], parser.init true).
Proof. reflexivity. Qed.

(** C7, as stated, fails: on the seven bytes of the claim the LEN byte 4
    puts the CRC at offset 5, where the byte is 0xC8 and not the CRC 0x54
    of [0x28, 0x00, 0xEA]; no frame is yielded and the bytes 0xC8, 0x54 stay
    buffered. *)
Lemma ping_vector_counterexample :
  parser.digest (parser.init true)
    [Byte.xc8; Byte.x04; Byte.x28; Byte.x00; Byte.xea; Byte.xc8; Byte.x54]
  = Some ([], mk_parser [Byte.xc8; Byte.x54] true).
Proof. reflexivity. Qed.

(** C7, amended.  Feeding the six bytes 0xC8, 0x04, 0x28, 0x00, 0xEA, 0x54
    to a fresh parser yields exactly one frame, with type 0x28 (PING),
    destination 0x00, origin 0xEA and [is_extended] true. *)
Theorem ping_vector_parsed (silent : bool) :
  exists f,
    parser.digest (parser.init silent)
      [Byte.xc8; Byte.x04; Byte.x28; Byte.x00; Byte.xea; Byte.x54]
    = Some ([f], parser.init silent) /\
    frame.type f = Some CRSF.MSG_TYPE_PING /\
    frame.destination f = Some (Some CRSF.BROADCAST_ADDR) /\
    frame.origin f = Some (Some CRSF.REMOTE_ADDR) /\
    frame.is_extended f = Some true.
Proof.
  exists ping_frame. destruct silent; repeat split; reflexivity.
Qed.

Lemma ping_frame_valid : valid_frame ping_frame.
Proof.
  exists Byte.x04, [Byte.x28; Byte.x00; Byte.xea], Byte.x54.
  repeat split; try reflexivity. discriminate.
Defined.

Lemma ping_fc_frame_valid : valid_frame ping_fc_frame.
Proof.
  exists Byte.x04, [Byte.x28; Byte.xc8; Byte.xff], Byte.x61.
  repeat split; try reflexivity. discriminate.
Defined.

(** C6, as stated, fails.  Noise that ends in a SYNC byte and a large LEN
    byte swallows the frame that follows it: nothing is yielded.  And a
    frame with a flipped CRC bit that holds a SYNC byte inside leaves that
    byte and what follows it in the buffer as the start of a frame of 257
    bytes, so the next well-formed frame is not yielded either. *)
Lemma resync_counterexample :
  valid_frame ping_frame /\ valid_frame ping_fc_frame /\
  parser.digest (parser.init true) ([Byte.xc8; Byte.xff] ++ data ping_frame)
  = Some ([], mk_parser ([Byte.xc8; Byte.xff] ++ data ping_frame) true) /\
  flip_crc_bit 0 ping_fc_frame
  = Some (mk_frame [Byte.xc8; Byte.x04; Byte.x28; Byte.xc8; Byte.xff;
                    Byte.x60]) /\
  parser.digest (parser.init true)
    [Byte.xc8; Byte.x04; Byte.x28; Byte.xc8; Byte.xff; Byte.x60]
  = Some ([], mk_parser [Byte.xc8; Byte.xff; Byte.x60] true) /\
  parser.digest (mk_parser [Byte.xc8; Byte.xff; Byte.x60] true)
    (data ping_frame)
  = Some ([], mk_parser ([Byte.xc8; Byte.xff; Byte.x60] ++ data ping_frame)
                        true).
Proof.
  split; [exact ping_frame_valid|]. split; [exact ping_fc_frame_valid|].
  repeat split; reflexivity.
Qed.

(** C6, amended.  For every well-formed frame [F]: whatever noise [N]
    without a SYNC byte comes before it, feeding [N] followed by the bytes
    of [F] to a fresh parser yields exactly [F]; and when [F'] is [F] with
    one bit of its CRC byte flipped and no byte of [F'] after the first is
    SYNC, feeding [F'] yields no frame, and a well-formed frame [G] fed
    afterwards is yielded. *)
Theorem resync (s : bool) (F : crsf_frame) :
  valid_frame F ->
  (forall N : list byte,
     Forall nosync N ->
     parser.digest (parser.init s) (N ++ data F)
     = Some ([F], parser.init s)) /\
  (forall (k : nat) (F' G : crsf_frame),
     flip_crc_bit k F = Some F' -> Forall nosync (tl (data F')) ->
     valid_frame G ->
     exists p',
       parser.digest (parser.init s) (data F') = Some ([], p') /\
       parser.digest p' (data G) = Some ([G], parser.init s)).
Proof.
  intros HF. split.
  - intros N HN. apply (digest_noise_frame s [] N F); auto.
  - intros k F' G Hflip Htl HG.
    destruct (flip_crc_bit_shape k F F' HF Hflip)
      as (l & body & c' & Hd & Hl & Hne & Hc).
    rewrite Hd in Htl. cbn [tl] in Htl.
    exists (mk_parser (if (length (l :: body ++ [c']) <? 4)%nat
                       then l :: body ++ [c'] else []) s).
    split.
    + unfold parser.digest, parser.init. cbn [pdata silent app]. rewrite Hd.
      assert (H4' : (4 <= length (Byte.xc8 :: l :: body ++ [c']))%nat).
      { simpl. rewrite length_app. destruct body; [congruence|].
        simpl. lia. }
      rewrite digest_loop_bad_crc by assumption.
      cbn [length]. now rewrite digest_loop_all_noise.
    + rewrite <- (app_nil_l (data G)).
      apply digest_noise_frame; auto.
      destruct (length (l :: body ++ [c']) <? 4)%nat; auto.
Qed.

Lemma resync_witness :
  parser.digest (parser.init true)
    ([Byte.x00; Byte.x2b; Byte.xff] ++ data ping_fc_frame)
  = Some ([ping_fc_frame], parser.init true) /\
  parser.digest (parser.init true)
    ([Byte.x00; Byte.x2b; Byte.xff] ++ data ping_frame)
  = Some ([ping_frame], parser.init true) /\
  exists p',
    parser.digest (parser.init true)
      [Byte.xc8; Byte.x04; Byte.x28; Byte.x00; Byte.xea; Byte.x55]
    = Some ([], p') /\
    parser.digest p' (data ping_fc_frame)
    = Some ([ping_fc_frame], parser.init true).
Proof.
  split; [|split].
  - apply (proj1 (resync true ping_fc_frame ping_fc_frame_valid)
             [Byte.x00; Byte.x2b; Byte.xff]).
    repeat constructor; discriminate.
  - apply (proj1 (resync true ping_frame ping_frame_valid)
             [Byte.x00; Byte.x2b; Byte.xff]).
    repeat constructor; discriminate.
  - apply (proj2 (resync true ping_frame ping_frame_valid) 0%nat
             (mk_frame [Byte.xc8; Byte.x04; Byte.x28; Byte.x00; Byte.xea;
                        Byte.x55])
             ping_fc_frame).
    + reflexivity.
    + repeat constructor; discriminate.
    + exact ping_fc_frame_valid.
Defined.

(** ** The int32 codec *)

Lemma land_shiftl_small (a b n : Z) :
  0 <= n -> 0 <= b < 2 ^ n -> Z.land (Z.shiftl a n) b = 0.
Proof.
  intros Hn Hb. apply Z.bits_inj'. intros i Hi.
  rewrite Z.land_spec, Z.bits_0.
  destruct (Z.lt_ge_cases i n).
  - now rewrite Z.shiftl_spec_low.
  - rewrite <- (Z.mod_small b (2 ^ n)) by lia.
    rewrite Z.mod_pow2_bits_high by lia. apply andb_false_r.
Qed.

Lemma lor_shiftl_add (a b n : Z) :
  0 <= n -> 0 <= b < 2 ^ n -> Z.lor (Z.shiftl a n) b = a * 2 ^ n + b.
Proof.
  intros Hn Hb.
  rewrite <- Z.lxor_lor, <- Z.add_nocarry_lxor, Z.shiftl_mul_pow2
    by (auto using land_shiftl_small).
  reflexivity.
Qed.

Lemma decode_int32_value (d0 d1 d2 d3 : byte) (rest : list byte) :
  CRSF.decode_int32 (d0 :: d1 :: d2 :: d3 :: rest)
  = Some (b2z d0 * 2 ^ 24 + b2z d1 * 2 ^ 16 + b2z d2 * 2 ^ 8 + b2z d3).
Proof.
  pose proof (b2z_range d0). pose proof (b2z_range d1).
  pose proof (b2z_range d2). pose proof (b2z_range d3).
  unfold CRSF.decode_int32.
  assert (E : Z.lor (Z.lor (Z.lor (Z.shiftl (b2z d0) 24) (Z.shiftl (b2z d1) 16))
                           (Z.shiftl (b2z d2) 8)) (b2z d3)
              = b2z d0 * 2 ^ 24 + b2z d1 * 2 ^ 16 + b2z d2 * 2 ^ 8 + b2z d3).
  { replace (Z.shiftl (b2z d0) 24) with (Z.shiftl (Z.shiftl (b2z d0) 8) 16)
      by (rewrite Z.shiftl_shiftl by lia; reflexivity).
    rewrite <- Z.shiftl_lor, (lor_shiftl_add (b2z d0) (b2z d1) 8) by lia.
    replace (Z.shiftl (b2z d0 * 2 ^ 8 + b2z d1) 16)
      with (Z.shiftl (Z.shiftl (b2z d0 * 2 ^ 8 + b2z d1) 8) 8)
      by (rewrite Z.shiftl_shiftl by lia; reflexivity).
    rewrite <- Z.shiftl_lor, lor_shiftl_add by lia.
    rewrite lor_shiftl_add by lia. lia. }
  cbv zeta. rewrite E.
  destruct (_ =? 0); f_equal. unfold Z.lnot. lia.
Qed.

(** C5 fails on the code: [decode_int32] returns the unsigned value of the
    four bytes, which is never negative, also when the sign bit is set;
    [0xFF, 0xFF, 0xFF, 0xFF], the encoding of -1, decodes to 4294967295. *)
Theorem decode_int32_unsigned :
  (forall d0 d1 d2 d3 rest,
      exists v,
        CRSF.decode_int32 (d0 :: d1 :: d2 :: d3 :: rest) = Some v /\
        v = b2z d0 * 2 ^ 24 + b2z d1 * 2 ^ 16 + b2z d2 * 2 ^ 8 + b2z d3 /\
        0 <= v < 2 ^ 32) /\
  traverse z2b (CRSF.encode_int32 (-1))
  = Some [Byte.xff; Byte.xff; Byte.xff; Byte.xff] /\
  CRSF.decode_int32 [Byte.xff; Byte.xff; Byte.xff; Byte.xff]
  = Some 4294967295.
Proof.
  split; [|split; reflexivity].
  intros d0 d1 d2 d3 rest. eexists. split; [apply decode_int32_value|].
  split; [reflexivity|].
  pose proof (b2z_range d0). pose proof (b2z_range d1).
  pose proof (b2z_range d2). pose proof (b2z_range d3). lia.
Qed.

(** ** PPM channels *)

Lemma bin_bytes_length (d : list byte) :
  length (flat_map bin_byte d) = (8 * length d)%nat.
Proof.
  induction d as [|b d IH]; [reflexivity|].
  cbn [flat_map]. rewrite length_app, IH. cbn [length bin_byte map]. lia.
Qed.

(** C8 fails on the code: on a payload of 22 bytes [ppm_channels_decode]
    returns fifteen values, not sixteen.  The range of bit offsets stops
    before offset 0, so the word in the leading eleven bits, the sixteenth
    channel, is never read. *)
Theorem ppm_channels_decode_fifteen (d : list byte) :
  length d = 22%nat ->
  exists us, ppm_channels_decode d = Some us /\ length us = 15%nat.
Proof.
  intros Hd. unfold ppm_channels_decode.
  assert (Hb : length (flat_map bin_byte (rev d)) = 176%nat)
    by (rewrite bin_bytes_length, length_rev, Hd; reflexivity).
  rewrite Hb. change (176 mod 11 =? 0)%nat with true.
  eexists. split; [reflexivity|].
  rewrite !length_map. reflexivity.
Qed.

Lemma ppm_channels_decode_fifteen_witness :
  exists us, ppm_channels_decode ppm_payload = Some us /\ length us = 15%nat.
Proof.
  apply (ppm_channels_decode_fifteen ppm_payload). reflexivity.
Defined.

(** The fifteen values are the channels 1 to 15; the word 1600 of channel
    16 is missing. *)
Example ppm_channels_decode_payload :
  ppm_channels_decode ppm_payload
  = Some (map ticks_to_us [100; 200; 300; 400; 500; 600; 700; 800; 900;
                           1000; 1100; 1200; 1300; 1400; 1500]).
Proof. reflexivity. Qed.

(** ** Writing a FLOAT *)

(** The literals of [get_float_decimal]. *)
Example tenth_pow_literals :
  tenth_pow 1 = 0x1.999999999999ap-4%float /\
  tenth_pow 2 = 0x1.47ae147ae147bp-7%float /\
  tenth_pow 3 = 0x1.0624dd2f1a9fcp-10%float.
Proof. repeat split; vm_compute; reflexivity. Qed.

(** C1 fails on the code: with [decimal_point = 2] the string that
    [get_float_decimal] evaluates is ['0.' + '00' + '1'], the float 0.001
    and not 0.01, so 3.14 is quantised to 3140, which is above [max = 1000]:
    [encode_float] returns [None] and no value field is produced.  The
    quantum 0.01 would give 314, whose encoding is 0x00, 0x00, 0x01, 0x3A. *)
Theorem encode_float_3_14 :
  CRSFParam.get_float_decimal float_param = PyFloat (tenth_pow 3) /\
  py_round (PrimFloat.div f3_14 (tenth_pow 3)) = inr 3140 /\
  CRSFParam.encode_float float_param f3_14 = inr None /\
  py_round (PrimFloat.div f3_14 (tenth_pow 2)) = inr 314 /\
  CRSF.encode_int32 314 = [0x00; 0x00; 0x01; 0x3A].
Proof. repeat split; vm_compute; reflexivity. Qed.

(** ** process_frame, by the kind of chunk *)

(** A chunk that is not the last one is stored in its slot, counted from
    the end of the buffer, which is allocated when it is empty. *)
Lemma process_frame_nonterminal (self : CRSFParam.t) (f : crsf_frame)
  (a c : byte) (e : list byte) (now : float) :
  carries f (a :: c :: e) -> b2z c <> 0 ->
  CRSFParam.process_frame self f now =
  let self' :=
    match CRSFParam.chunks self with
    | [] => CRSFParam.set_chunks (repeat None (Z.to_nat (b2z c + 1))) self
    | _ :: _ => self
    end in
  match set_from_end (CRSFParam.chunks self') (Z.to_nat (b2z c + 1))
                     (Some (a :: c :: e)) with
  | Some cs => Returned (CRSFParam.set_chunks cs self')
  | None => Raised IndexError self'
  end.
Proof.
  intros [Ht Hp] Hc. unfold CRSFParam.process_frame. rewrite Ht, Hp.
  change (CRSF.MSG_TYPE_PARAM_ENTRY =? CRSF.MSG_TYPE_PARAM_ENTRY) with true.
  cbn [negb firstn].
  destruct (Z.eqb_spec (b2z c) 0); [contradiction|reflexivity].
Qed.

(** The last chunk, with chunks pending: it fills the last slot and the
    buffer is checked. *)
Lemma process_frame_terminal (self : CRSFParam.t) (f : crsf_frame)
  (a c : byte) (e : list byte) (now : float) :
  carries f (a :: c :: e) -> b2z c = 0 -> CRSFParam.chunks self <> [] ->
  CRSFParam.process_frame self f now =
  let cs := removelast (CRSFParam.chunks self) ++ [Some (a :: c :: e)] in
  match CRSFParam.reassemble (CRSFParam.num self) cs with
  | inl x => Raised x (CRSFParam.set_chunks cs self)
  | inr None => Returned (CRSFParam.set_chunks cs self)
  | inr (Some payload) =>
      CRSFParam.decode_entry (CRSFParam.set_chunks [] self) payload 0 now
  end.
Proof.
  intros [Ht Hp] Hc Hne. unfold CRSFParam.process_frame. rewrite Ht, Hp.
  change (CRSF.MSG_TYPE_PARAM_ENTRY =? CRSF.MSG_TYPE_PARAM_ENTRY) with true.
  cbn [negb firstn]. rewrite Hc. cbn [Z.eqb negb].
  destruct (CRSFParam.chunks self) as [|x l] eqn:El; [congruence|].
  assert (Es : set_from_end (x :: l) 1 (Some (a :: c :: e))
               = Some (removelast (x :: l) ++ [Some (a :: c :: e)])).
  { unfold set_from_end. cbn [length Nat.ltb Nat.leb andb].
    rewrite removelast_firstn_len. cbn [length Nat.pred].
    replace (S (length l) - 1)%nat with (length l) by lia.
    replace (length l + 1)%nat with (length (x :: l)) by (simpl; lia).
    now rewrite skipn_all. }
  rewrite Es. cbv zeta.
  destruct self; cbn [CRSFParam.set_chunks CRSFParam.num CRSFParam.chunks].
  reflexivity.
Qed.

(** An entry in one frame, with no chunk pending: it is decoded as it is. *)
Lemma process_frame_single (self : CRSFParam.t) (f : crsf_frame)
  (a c : byte) (e : list byte) (now : float) :
  carries f (a :: c :: e) -> b2z c = 0 -> CRSFParam.chunks self = [] ->
  CRSFParam.process_frame self f now
  = CRSFParam.decode_entry self (a :: c :: e) 0 now.
Proof.
  intros [Ht Hp] Hc He. unfold CRSFParam.process_frame. rewrite Ht, Hp.
  change (CRSF.MSG_TYPE_PARAM_ENTRY =? CRSF.MSG_TYPE_PARAM_ENTRY) with true.
  cbn [negb firstn]. rewrite Hc, He. reflexivity.
Qed.

Lemma traverse_id_In_None {A} (cs : list (option A)) :
  In None cs -> traverse (fun x => x) cs = None.
Proof.
  induction cs as [|x cs IH]; intros Hin; [contradiction|].
  destruct Hin as [->|Hin]; [reflexivity|].
  simpl. rewrite (IH Hin). now destruct x.
Qed.

(** A buffer with an empty slot does not pass the check. *)
Lemma reassemble_empty_slot (n : Z) (cs : list (option (list byte))) :
  In None cs -> CRSFParam.reassemble n cs = inr None.
Proof.
  intros Hin. unfold CRSFParam.reassemble.
  now rewrite traverse_id_In_None.
Qed.

(** ** Chunk errors *)

(** C2 fails on the code: when the last chunk arrives and the buffer does
    not pass the check, [process_frame] returns with no field decoded, but
    the buffer is not cleared: it keeps its slots, the last one filled with
    the payload just received. *)
Theorem chunk_error_keeps_buffer (self : CRSFParam.t) (f : crsf_frame)
  (a c : byte) (e : list byte) (now : float) :
  carries f (a :: c :: e) -> b2z c = 0 -> CRSFParam.chunks self <> [] ->
  CRSFParam.reassemble (CRSFParam.num self)
    (removelast (CRSFParam.chunks self) ++ [Some (a :: c :: e)]) = inr None ->
  exists s',
    CRSFParam.process_frame self f now = Returned s' /\
    CRSFParam.chunks s'
    = removelast (CRSFParam.chunks self) ++ [Some (a :: c :: e)] /\
    CRSFParam.chunks s' <> [] /\
    s' = CRSFParam.set_chunks (CRSFParam.chunks s') self.
Proof.
  intros Hf Hc Hne Hr.
  rewrite (process_frame_terminal self f a c e now Hf Hc Hne).
  cbv zeta. rewrite Hr. eexists. split; [reflexivity|].
  destruct self; cbn [CRSFParam.set_chunks CRSFParam.chunks].
  repeat split. intros E. now apply app_eq_nil in E as [_ E].
Qed.

Lemma chunk_error_keeps_buffer_witness :
  exists s',
    CRSFParam.process_frame param_after_chunk0 (entry_frame float_chunk2)
      PrimFloat.one = Returned s' /\
    CRSFParam.chunks s'
    = removelast (CRSFParam.chunks param_after_chunk0) ++ [Some float_chunk2] /\
    CRSFParam.chunks s' <> [] /\
    s' = CRSFParam.set_chunks (CRSFParam.chunks s') param_after_chunk0.
Proof.
  apply (chunk_error_keeps_buffer param_after_chunk0
           (entry_frame float_chunk2) Byte.x01 Byte.x00
           (nth 2 float_entry_chunks []) PrimFloat.one).
  - split; reflexivity.
  - reflexivity.
  - discriminate.
  - apply reassemble_empty_slot. right. left. reflexivity.
Defined.

(** The run that leads there: chunk 0 of three arrives at a fresh
    parameter, chunk 1 is lost and chunk 2 arrives.  The buffer keeps its
    three slots. *)
Example chunk_error_run (t0 t1 : float) :
  CRSFParam.process_frames (CRSFParam.init 1 PrimFloat.zero)
    [(entry_frame float_chunk0, t0); (entry_frame float_chunk2, t1)]
  = Returned (CRSFParam.set_chunks
                [Some float_chunk0; None; Some float_chunk2]
                (CRSFParam.init 1 PrimFloat.zero)).
Proof. reflexivity. Qed.

(** ** Malformed entries *)

(** The two malformed entries that raise, and one that is dropped. *)
Example malformed_entry_examples (now : float) :
  deliver (CRSFParam.init 1 PrimFloat.zero) selection_short now
  = Some (Raised ValueError (CRSFParam.init 1 PrimFloat.zero)) /\
  deliver (CRSFParam.init 1 PrimFloat.zero) string_short now
  = Some (Raised IndexError (CRSFParam.init 1 PrimFloat.zero)) /\
  deliver (CRSFParam.init 1 PrimFloat.zero) name_unterminated now
  = Some (Returned (CRSFParam.init 1 PrimFloat.zero)).
Proof. repeat split; reflexivity. Qed.

(** ** Chunked entries *)

(** Decoding never reads the first two bytes of the payload. *)
Lemma decode_entry_header (self : CRSFParam.t) (a b a' b' : byte)
  (entry : list byte) (chunks_remain : Z) (now : float) :
  CRSFParam.decode_entry self (a :: b :: entry) chunks_remain now
  = CRSFParam.decode_entry self (a' :: b' :: entry) chunks_remain now.
Proof.
  unfold CRSFParam.decode_entry, find_decode, slice.
  cbn [skipn Nat.sub firstn Nat.add].
  destruct entry as [|pf [|dt r]]; try reflexivity.
  cbn [firstn].
  repeat (try reflexivity;
          match goal with
          | |- context [match index ?x ?l with _ => _ end] =>
              destruct (index x l)
          | |- context [match utf8_decode ?l with _ => _ end] =>
              destruct (utf8_decode l)
          | |- context [if ?c then _ else _] => destruct c
          end;
          cbn [skipn Nat.add nth_error firstn Nat.sub]).
Qed.

Lemma set_from_end_slot {A} (pre post : list A) (x v : A) :
  set_from_end (pre ++ x :: post) (S (length post)) v
  = Some (pre ++ v :: post).
Proof.
  unfold set_from_end.
  assert (Hlen : length (pre ++ x :: post) = (length pre + S (length post))%nat)
    by (rewrite length_app; reflexivity).
  rewrite Hlen.
  replace (length pre + S (length post) - S (length post))%nat
    with (length pre) by lia.
  destruct (Nat.leb_spec (S (length post)) (length pre + S (length post)));
    [|lia].
  cbn [Nat.ltb Nat.leb andb]. f_equal.
  rewrite firstn_app_exact. f_equal.
  replace (length pre + 1)%nat with (length (pre ++ [x]))
    by (rewrite length_app; reflexivity).
  change (pre ++ x :: post) with (pre ++ [x] ++ post).
  rewrite app_assoc. now rewrite skipn_app_exact.
Qed.

Lemma chunk_payloads_cons (n : byte) (e : list byte) (r ps : list (list byte)) :
  chunk_payloads n (e :: r) = Some ps ->
  exists c ps',
    ps = (n :: c :: e) :: ps' /\
    b2z c = Z.of_nat (length r) /\
    chunk_payloads n r = Some ps'.
Proof.
  cbn [chunk_payloads]. intros E.
  destruct (z2b (Z.of_nat (length r))) as [c|] eqn:Ec; [|discriminate].
  destruct (chunk_payloads n r) as [ps'|]; [|discriminate].
  injection E as <-. exists c, ps'. repeat split. now apply z2b_b2z.
Qed.

Lemma chunk_payloads_length (n : byte) (es : list (list byte)) :
  forall ps, chunk_payloads n es = Some ps -> length ps = length es.
Proof.
  induction es as [|e r IH]; intros ps E.
  - injection E as <-. reflexivity.
  - apply chunk_payloads_cons in E as (c & ps' & -> & _ & E).
    simpl. f_equal. now apply IH.
Qed.

Lemma traverse_cons {A B} (f : A -> option B) (x : A) (l : list A) :
  traverse f (x :: l) =
  match f x, traverse f l with
  | Some y, Some ys => Some (y :: ys)
  | _, _ => None
  end.
Proof. reflexivity. Qed.

Lemma traverse_id_map_Some {A} (l : list A) :
  traverse (fun x => x) (map Some l) = Some l.
Proof.
  induction l as [|x l IH]; [reflexivity|]. simpl. now rewrite IH.
Qed.

(** The second bytes of the chunk payloads count down to 0. *)
Lemma chunk_payloads_seconds (n : byte) (es : list (list byte)) :
  forall ps,
    chunk_payloads n es = Some ps ->
    exists cs,
      traverse (fun x => nth_error x 1) ps = Some cs /\
      map b2z cs = map Z.of_nat (rev (seq 0 (length es))).
Proof.
  induction es as [|e r IH]; intros ps E.
  - injection E as <-. exists []. split; reflexivity.
  - apply chunk_payloads_cons in E as (c & ps' & -> & Hc & E).
    destruct (IH ps' E) as (cs & Hcs & Hm).
    exists (c :: cs). split.
    + rewrite traverse_cons, Hcs. reflexivity.
    + cbn [length map]. rewrite seq_S, rev_unit. cbn [map Nat.add].
      now rewrite Hc, Hm.
Qed.

(** Their first bytes are all the parameter number. *)
Lemma chunk_payloads_firsts (n : byte) (es : list (list byte)) :
  forall ps,
    chunk_payloads n es = Some ps ->
    traverse (fun x => nth_error x 0) ps = Some (repeat n (length es)).
Proof.
  induction es as [|e r IH]; intros ps E.
  - injection E as <-. reflexivity.
  - apply chunk_payloads_cons in E as (c & ps' & -> & _ & E).
    rewrite traverse_cons, (IH ps' E). reflexivity.
Qed.

(** And what follows their first two bytes is the entry. *)
Lemma chunk_payloads_concat (n : byte) (es : list (list byte)) :
  forall ps,
    chunk_payloads n es = Some ps -> concat (map (skipn 2) ps) = concat es.
Proof.
  induction es as [|e r IH]; intros ps E.
  - injection E as <-. reflexivity.
  - apply chunk_payloads_cons in E as (c & ps' & -> & _ & E).
    change (concat (map (skipn 2) ((n :: c :: e) :: ps')))
      with (e ++ concat (map (skipn 2) ps')).
    now rewrite (IH ps' E).
Qed.

Lemma filter_repeat_length (n : byte) (k : nat) :
  length (filter (fun b => b2z b =? b2z n) (repeat n k)) = k.
Proof.
  induction k as [|k IH]; [reflexivity|].
  cbn [repeat filter]. rewrite Z.eqb_refl. simpl. now rewrite IH.
Qed.

(** A buffer filled with the chunks of an entry, in order, passes the
    check and is reassembled to the header of the first chunk followed by
    the entry. *)
Lemma reassemble_complete (n : byte) (es ps : list (list byte)) :
  chunk_payloads n es = Some ps -> es <> [] ->
  exists c0,
    CRSFParam.reassemble (b2z n) (map Some ps)
    = inr (Some (n :: c0 :: concat es)).
Proof.
  intros E Hne. unfold CRSFParam.reassemble.
  rewrite traverse_id_map_Some.
  destruct (chunk_payloads_seconds n es ps E) as (cs & -> & Hcs).
  rewrite Hcs, map_rev, rev_involutive, length_map,
    (chunk_payloads_length n es ps E).
  destruct (list_eq_dec Z.eq_dec _ _) as [_|Hx]; [|congruence].
  rewrite (chunk_payloads_firsts n es ps E), filter_repeat_length,
    Nat.eqb_refl, (chunk_payloads_concat n es ps E).
  destruct es as [|e r]; [congruence|].
  apply chunk_payloads_cons in E as (c & ps' & -> & _ & _).
  exists c. reflexivity.
Qed.

Lemma process_frames_one (s : CRSFParam.t) (f : crsf_frame) (now : float) :
  CRSFParam.process_frames s [(f, now)] = CRSFParam.process_frame s f now.
Proof.
  cbn [CRSFParam.process_frames].
  now destruct (CRSFParam.process_frame s f now).
Qed.

(** The chunks that follow the first, delivered in order to a parameter
    that holds the chunks before them: every chunk but the last fills its
    slot, and the last one triggers the check of the whole buffer. *)
Lemma process_frames_chunks (n : byte) (es : list (list byte)) :
  forall ps calls done s d,
    chunk_payloads n es = Some ps ->
    Forall2 (fun call p => carries (fst call) p) calls ps ->
    es <> [] -> done <> [] ->
    CRSFParam.chunks s = map Some done ++ repeat None (length es) ->
    CRSFParam.process_frames s calls =
    match CRSFParam.reassemble (CRSFParam.num s) (map Some (done ++ ps)) with
    | inl x => Raised x (CRSFParam.set_chunks (map Some (done ++ ps)) s)
    | inr None => Returned (CRSFParam.set_chunks (map Some (done ++ ps)) s)
    | inr (Some payload) =>
        CRSFParam.decode_entry (CRSFParam.set_chunks [] s) payload 0
          (snd (last calls d))
    end.
Proof.
  induction es as [|e r IH]; intros ps calls done s d E Hc Hne Hd Hs;
    [congruence|].
  apply chunk_payloads_cons in E as (c & ps' & -> & Hcr & E).
  inversion Hc as [|[f t] p calls' ps'' Hf Hc' E1 E2]; subst.
  cbn [fst] in Hf.
  assert (Hsne : CRSFParam.chunks s <> []).
  { rewrite Hs. destruct done; [congruence|discriminate]. }
  destruct r as [|e' r].
  - (* the last chunk *)
    injection E as <-. inversion Hc'; subst.
    cbn [length Z.of_nat] in Hcr.
    rewrite process_frames_one.
    rewrite (process_frame_terminal s f n c e t Hf Hcr Hsne).
    cbv zeta. rewrite Hs. cbn [repeat length].
    rewrite removelast_last, map_app. reflexivity.
  - (* a chunk before the last *)
    cbn [CRSFParam.process_frames].
    rewrite (process_frame_nonterminal s f n c e t Hf) by (rewrite Hcr; simpl; lia).
    cbv zeta.
    replace (match CRSFParam.chunks s with
             | [] => CRSFParam.set_chunks
                       (repeat None (Z.to_nat (b2z c + 1))) s
             | _ :: _ => s
             end) with s by (destruct (CRSFParam.chunks s); congruence).
    rewrite Hs, Hcr.
    replace (Z.to_nat (Z.of_nat (length (e' :: r)) + 1))
      with (S (length (repeat (@None (list byte)) (length (e' :: r)))))
      by (rewrite repeat_length; lia).
    change (repeat (@None (list byte)) (length (e :: e' :: r)))
      with (@None (list byte) :: repeat None (length (e' :: r))).
    rewrite set_from_end_slot.
    assert (Hps' : ps' <> []).
    { apply chunk_payloads_length in E. destruct ps'; [discriminate|congruence]. }
    rewrite (IH ps' calls' (done ++ [n :: c :: e]) _ d E Hc').
    + destruct s. cbn [CRSFParam.set_chunks CRSFParam.num].
      rewrite <- app_assoc. cbn [app].
      destruct calls' as [|call' calls'']; [inversion Hc'; congruence|].
      reflexivity.
    + discriminate.
    + destruct done; discriminate.
    + destruct s. cbn [CRSFParam.set_chunks CRSFParam.chunks].
      rewrite map_app, <- app_assoc. reflexivity.
Qed.

Lemma last_clock (calls : list (crsf_frame * float)) (clocks : list float)
  (now : float) (d : crsf_frame * float) :
  map snd calls = clocks ++ [now] -> snd (last calls d) = now.
Proof.
  intros E.
  assert (H : forall l : list (crsf_frame * float),
             snd (last l d) = last (map snd l) (snd d)).
  { induction l as [|x [|y l] IH]; try reflexivity. exact IH. }
  rewrite H, E. apply last_last.
Qed.

(** An entry delivered in chunks, in order, ends as the entry delivered in
    one frame does. *)
Lemma process_frames_chunked (self : CRSFParam.t) (n : byte)
  (es ps : list (list byte)) (calls : list (crsf_frame * float))
  (clocks : list float) (single : crsf_frame) (now : float) :
  CRSFParam.chunks self = [] -> b2z n = CRSFParam.num self ->
  chunk_payloads n es = Some ps ->
  Forall2 (fun call p => carries (fst call) p) calls ps ->
  map snd calls = clocks ++ [now] ->
  carries single (n :: Byte.x00 :: concat es) ->
  CRSFParam.process_frames self calls
  = CRSFParam.process_frame self single now.
Proof.
  intros Hs Hn E Hc Hclk Hsingle.
  rewrite (process_frame_single self single n Byte.x00 (concat es) now)
    by auto.
  destruct es as [|e r].
  { injection E as <-. inversion Hc; subst.
    destruct clocks; discriminate. }
  pose proof E as Eall.
  apply chunk_payloads_cons in E as (c & ps' & -> & Hcr & E).
  inversion Hc as [|[f t] p calls' ps'' Hf Hc' E1 E2]; subst.
  cbn [fst] in Hf.
  destruct r as [|e' r].
  - (* one chunk *)
    injection E as <-. inversion Hc'; subst.
    cbn [length Z.of_nat] in Hcr.
    rewrite process_frames_one.
    rewrite (process_frame_single self f n c e t) by auto.
    replace t with now
      by (symmetry; exact (last_clock [(f, t)] clocks now (f, t) Hclk)).
    cbn [concat]. rewrite app_nil_r. apply decode_entry_header.
  - (* several chunks *)
    cbn [CRSFParam.process_frames].
    rewrite (process_frame_nonterminal self f n c e t Hf)
      by (rewrite Hcr; simpl; lia).
    cbv zeta. rewrite Hs, Hcr.
    destruct self as [num pf ty nm ch v h mn df mx un cd op ml dp ss st tm inf
                        ct ot].
    cbn [CRSFParam.chunks CRSFParam.num CRSFParam.set_chunks] in *. subst ch.
    replace (Z.to_nat (Z.of_nat (length (e' :: r)) + 1))
      with (S (length (repeat (@None (list byte)) (length (e' :: r)))))
      by (rewrite repeat_length; lia).
    change (repeat (@None (list byte))
              (S (length (repeat (@None (list byte)) (length (e' :: r))))))
      with ([] ++ @None (list byte)
               :: repeat None (length (repeat (@None (list byte))
                                              (length (e' :: r))))).
    rewrite repeat_length at 1.
    rewrite set_from_end_slot. cbn [app].
    rewrite (process_frames_chunks n (e' :: r) ps' calls' [n :: c :: e] _ (f, t)
               E Hc');
      try discriminate; [|reflexivity].
    cbn [CRSFParam.chunks CRSFParam.num CRSFParam.set_chunks app].
    destruct (reassemble_complete n (e :: e' :: r) _ Eall) as [c0 Hr];
      [discriminate|].
    rewrite <- Hn, Hr.
    assert (Hne : calls' <> []).
    { apply chunk_payloads_length in E. inversion Hc'; subst;
        [discriminate|discriminate]. }
    replace (snd (last calls' (f, t))) with now.
    + apply decode_entry_header.
    + symmetry. rewrite <- (last_clock ((f, t) :: calls') clocks now (f, t) Hclk).
      destruct calls'; [congruence|reflexivity].
Qed.

(** The three chunks of the FLOAT entry, delivered with [chunks_remaining]
    2, 1, 0, leave the parameter decoded: kind FLOAT, name Gain, value 314,
    min 0, max 1000, default 100, decimal point 2, step 1, unit dB, and
    [obtained_time] the clock reading of the last chunk. *)
Example float_chunks_decoded (t0 t1 now : float) :
  CRSFParam.process_frames (CRSFParam.init 1 PrimFloat.zero)
    (float_chunk_calls t0 t1 now)
  = Returned (float_decoded now).
Proof. reflexivity. Qed.

Example float_single_decoded (now : float) :
  CRSFParam.process_frame (CRSFParam.init 1 PrimFloat.zero)
    float_single_frame now
  = Returned (float_decoded now).
Proof. reflexivity. Qed.

(** ** Decoding a FLOAT entry *)

Lemma index_sentinel (z : Z) (s q : list byte) (t : byte) :
  Forall (fun x => b2z x <> z) s -> b2z t = z ->
  index z (s ++ t :: q) = Some (length s).
Proof.
  intros Hs Ht. induction Hs as [|x s Hx _ IH]; simpl.
  - now rewrite Ht, Z.eqb_refl.
  - destruct (Z.eqb_spec (b2z x) z); [contradiction|]. now rewrite IH.
Qed.

Lemma find_decode_at (p s q : list byte) (t : byte) (z : Z) (str' : str) :
  Forall (fun x => b2z x <> z) s -> b2z t = z -> utf8_decode s = Some str' ->
  find_decode (p ++ s ++ t :: q) (length p) z
  = Some ((length p + length s)%nat, str').
Proof.
  intros Hs Ht Hd. unfold find_decode, slice.
  rewrite skipn_app_exact, (index_sentinel z s q t Hs Ht).
  replace (length p + length s - length p)%nat with (length s) by lia.
  now rewrite firstn_app_exact, Hd.
Qed.

Lemma slice_app_plus {A} (p q : list A) (i j : nat) :
  slice (p ++ q) (length p + i) (length p + j) = slice q i j.
Proof.
  unfold slice. rewrite skipn_app, skipn_all2 by lia.
  replace (length p + i - length p)%nat with i by lia.
  replace (length p + j - (length p + i))%nat with (j - i)%nat by lia.
  reflexivity.
Qed.

Lemma nth_error_app_plus {A} (p q : list A) (i : nat) :
  nth_error (p ++ q) (length p + i) = nth_error q i.
Proof.
  rewrite nth_error_app2 by lia. f_equal. lia.
Qed.

(** A well-formed FLOAT entry is decoded: the fields are set from the
    entry, the words to their unsigned values, and [obtained_time] to the
    clock reading. *)
Lemma decode_float_entry (self : CRSFParam.t) (a b pf dt : byte)
  (name : list byte) (v mn mx df : byte * byte * byte * byte) (dp : byte)
  (st : byte * byte * byte * byte) (unit rest : list byte)
  (nm un : str) (now : float) :
  Z.land (b2z dt) 0x7F = CRSFParam.FLOAT_TYPE ->
  Forall (fun x => b2z x <> 0) name -> utf8_decode name = Some nm ->
  Forall (fun x => b2z x <> 0) unit -> utf8_decode unit = Some un ->
  CRSFParam.decode_entry self
    (a :: b :: float_entry pf dt name v mn mx df dp st unit rest) 0 now
  = Returned
      (CRSFParam.set_obtained_time now
      (CRSFParam.set_unit (Some un)
      (CRSFParam.set_step_size (Some (word_value st))
      (CRSFParam.set_decimal_point (Some (b2z dp))
      (CRSFParam.set_default (Some (word_value df))
      (CRSFParam.set_max (Some (word_value mx))
      (CRSFParam.set_min (Some (word_value mn))
      (CRSFParam.set_value (Some (VInt (word_value v)))
      (CRSFParam.set_name nm
      (CRSFParam.set_hidden (Z.land (b2z dt) 0x80)
      (CRSFParam.set_type (Some CRSFParam.FLOAT_TYPE)
      (CRSFParam.set_parent_folder (Some (b2z pf)) self)))))))))))).
Proof.
  intros Hty Hname Hnm Hunit Hun.
  destruct v as [[[v0 v1] v2] v3], mn as [[[n0 n1] n2] n3],
    mx as [[[x0 x1] x2] x3], df as [[[f0 f1] f2] f3],
    st as [[[s0 s1] s2] s3].
  unfold float_entry, word_value. cbn [app].
  set (q21 := [Byte.x00; v0; v1; v2; v3; n0; n1; n2; n3; x0; x1; x2; x3;
               f0; f1; f2; f3; dp; s0; s1; s2; s3]).
  set (p := a :: b :: pf :: dt :: name).
  set (q := q21 ++ unit ++ Byte.x00 :: rest).
  change (a :: b :: pf :: dt :: name ++ Byte.x00 :: v0 :: v1 :: v2 :: v3
            :: n0 :: n1 :: n2 :: n3 :: x0 :: x1 :: x2 :: x3
            :: f0 :: f1 :: f2 :: f3 :: dp :: s0 :: s1 :: s2 :: s3
            :: unit ++ Byte.x00 :: rest) with (p ++ q).
  assert (Hn : find_decode (p ++ q) 4 0 = Some (length p, nm)).
  { exact (find_decode_at [a; b; pf; dt] name
             (tl q21 ++ unit ++ Byte.x00 :: rest) Byte.x00 0 nm
             Hname eq_refl Hnm). }
  assert (Hu : find_decode (p ++ q) (length p + 22) 0
               = Some ((length p + 22 + length unit)%nat, un)).
  { unfold q. rewrite app_assoc.
    replace (length p + 22)%nat with (length (p ++ q21))
      by (rewrite length_app; reflexivity).
    now apply find_decode_at. }
  unfold CRSFParam.decode_entry.
  change (slice (p ++ q) 2 4) with [pf; dt].
  cbv zeta. rewrite Hn, Hty.
  change (CRSFParam.FLOAT_TYPE =? CRSFParam.FOLDER_TYPE) with false.
  change (CRSFParam.FLOAT_TYPE =? CRSFParam.COMMAND_TYPE) with false.
  change (CRSFParam.FLOAT_TYPE =? CRSFParam.FLOAT_TYPE) with true.
  cbv iota. rewrite Hu. change (0 =? 0) with true. cbv iota.
  rewrite !slice_app_plus, nth_error_app_plus.
  unfold CRSFParam.assign_int32, q, q21, slice. cbn [skipn firstn Nat.sub app nth_error].
  rewrite !decode_int32_value. reflexivity.
Qed.

(** C3.  An entry delivered in chunks decodes as the entry delivered in
    one frame.  Let the parameter have no chunk pending, let the entry be
    cut into the pieces [es], chunk [i] carrying the parameter's number,
    the count of the chunks after it and the piece [i] from offset 2 on,
    and let the frames of [calls] carry these payloads in this order, so
    that [chunks_remaining] runs strictly down to 0.  Then processing them
    one after the other ends as processing the single frame that carries
    the parameter's number, [chunks_remaining = 0] and the whole entry
    does, at the clock reading of the last chunk: the same return or
    exception and the same state, field by field, with the chunk buffer
    empty again.  When the entry is a well-formed FLOAT entry, that state
    has type, name, parent folder, hidden flag, value, min, max, default,
    decimal point, step size and unit as the entry gives them, and
    [obtained_time] is the clock reading of the last chunk. *)
Theorem chunked_entry_as_single (self : CRSFParam.t) (n : byte)
  (es ps : list (list byte)) (calls : list (crsf_frame * float))
  (clocks : list float) (single : crsf_frame) (now : float) :
  CRSFParam.chunks self = [] -> b2z n = CRSFParam.num self ->
  chunk_payloads n es = Some ps ->
  Forall2 (fun call p => carries (fst call) p) calls ps ->
  map snd calls = clocks ++ [now] ->
  carries single (n :: Byte.x00 :: concat es) ->
  CRSFParam.process_frames self calls
  = CRSFParam.process_frame self single now /\
  forall pf dt name v mn mx df dp st unit rest nm un,
    concat es = float_entry pf dt name v mn mx df dp st unit rest ->
    Z.land (b2z dt) 0x7F = CRSFParam.FLOAT_TYPE ->
    Forall (fun x => b2z x <> 0) name -> utf8_decode name = Some nm ->
    Forall (fun x => b2z x <> 0) unit -> utf8_decode unit = Some un ->
    exists s,
      CRSFParam.process_frames self calls = Returned s /\
      CRSFParam.obtained_time s = now /\
      s = CRSFParam.set_obtained_time now
         (CRSFParam.set_unit (Some un)
         (CRSFParam.set_step_size (Some (word_value st))
         (CRSFParam.set_decimal_point (Some (b2z dp))
         (CRSFParam.set_default (Some (word_value df))
         (CRSFParam.set_max (Some (word_value mx))
         (CRSFParam.set_min (Some (word_value mn))
         (CRSFParam.set_value (Some (VInt (word_value v)))
         (CRSFParam.set_name nm
         (CRSFParam.set_hidden (Z.land (b2z dt) 0x80)
         (CRSFParam.set_type (Some CRSFParam.FLOAT_TYPE)
         (CRSFParam.set_parent_folder (Some (b2z pf)) self))))))))))).
Proof.
  intros Hs Hn E Hc Hclk Hsingle.
  pose proof (process_frames_chunked self n es ps calls clocks single now
                Hs Hn E Hc Hclk Hsingle) as Heq.
  split; [exact Heq|].
  intros pf dt name v mn mx df dp st unit rest nm un Hentry Hty Hname Hnm
    Hunit Hun.
  rewrite Heq.
  rewrite (process_frame_single self single n Byte.x00 (concat es) now)
    by auto.
  rewrite Hentry, (decode_float_entry self n Byte.x00 pf dt name v mn mx df
                     dp st unit rest nm un now) by assumption.
  eexists. split; [reflexivity|]. split; reflexivity.
Qed.

Lemma chunked_entry_as_single_witness :
  CRSFParam.process_frames (CRSFParam.init 1 PrimFloat.zero)
    (float_chunk_calls PrimFloat.one PrimFloat.one PrimFloat.two)
  = CRSFParam.process_frame (CRSFParam.init 1 PrimFloat.zero)
      float_single_frame PrimFloat.two.
Proof.
  refine (proj1 (chunked_entry_as_single (CRSFParam.init 1 PrimFloat.zero)
           Byte.x01 float_entry_chunks
           [float_chunk0; float_chunk1; float_chunk2]
           (float_chunk_calls PrimFloat.one PrimFloat.one PrimFloat.two)
           [PrimFloat.one; PrimFloat.one] float_single_frame PrimFloat.two
           _ _ _ _ _ _)).
  - reflexivity.
  - reflexivity.
  - reflexivity.
  - repeat (constructor; [split; reflexivity|]). constructor.
  - reflexivity.
  - split; reflexivity.
Defined.

(** ** Malformed entries, in general *)

(** The name of an entry and a second NUL-terminated string after it. *)
Lemma find_decode_two (a b pf dt t1 t2 : byte) (name s2 tail : list byte)
  (nm str2 : str) :
  Forall (fun x => b2z x <> 0) name -> utf8_decode name = Some nm ->
  Forall (fun x => b2z x <> 0) s2 -> utf8_decode s2 = Some str2 ->
  b2z t1 = 0 -> b2z t2 = 0 ->
  let payload := a :: b :: pf :: dt :: name ++ t1 :: s2 ++ t2 :: tail in
  let nul := length (a :: b :: pf :: dt :: name) in
  find_decode payload 4 0 = Some (nul, nm) /\
  find_decode payload (nul + 1) 0 = Some ((nul + 1 + length s2)%nat, str2) /\
  (forall i j,
      slice payload (nul + 1 + length s2 + 1 + i) (nul + 1 + length s2 + 1 + j)
      = slice tail i j) /\
  nth_error payload (nul + 1 + length s2 + 1) = nth_error tail 0.
Proof.
  intros Hname Hnm Hs2 Hstr2 Ht1 Ht2 payload nul.
  set (p := a :: b :: pf :: dt :: name) in *.
  assert (Hlen : length ((p ++ [t1]) ++ s2 ++ [t2]) = (nul + 1 + length s2 + 1)%nat).
  { rewrite !length_app. cbn [length]. subst nul. lia. }
  assert (Hp : payload = ((p ++ [t1]) ++ s2 ++ [t2]) ++ tail).
  { subst payload p. rewrite <- !app_assoc. reflexivity. }
  split; [|split; [|split]].
  - exact (find_decode_at [a; b; pf; dt] name (s2 ++ t2 :: tail) t1 0 nm
             Hname Ht1 Hnm).
  - replace payload with ((p ++ [t1]) ++ s2 ++ t2 :: tail)
      by (subst payload p; rewrite <- !app_assoc; reflexivity).
    replace (nul + 1)%nat with (length (p ++ [t1]))
      by (rewrite length_app; reflexivity).
    now apply find_decode_at.
  - intros i j. rewrite Hp, <- Hlen. apply slice_app_plus.
  - rewrite Hp, <- Hlen, <- (Nat.add_0_r (length _)).
    apply nth_error_app_plus.
Qed.

(** C9 fails on the code.  An entry in one frame, for a parameter with no
    chunk pending, with a name and a second string that are NUL-terminated
    and well encoded: when its kind is TEXT_SELECTION and fewer than four
    bytes follow the NUL of the options, [process_frame] raises
    ValueError; when its kind is STRING and nothing follows the NUL of the
    value, it raises IndexError.  In both cases the parameter is left as it
    was. *)
Theorem malformed_entry_raises (self : CRSFParam.t) (f : crsf_frame)
  (n pf dt : byte) (name s2 tail : list byte) (nm str2 : str) (now : float) :
  CRSFParam.chunks self = [] ->
  carries f (n :: Byte.x00 :: pf :: dt :: name ++ Byte.x00 :: s2
               ++ Byte.x00 :: tail) ->
  Forall (fun x => b2z x <> 0) name -> utf8_decode name = Some nm ->
  Forall (fun x => b2z x <> 0) s2 -> utf8_decode s2 = Some str2 ->
  (Z.land (b2z dt) 0x7F = CRSFParam.TEXT_SELECTION_TYPE ->
   (length tail < 4)%nat ->
   CRSFParam.process_frame self f now = Raised ValueError self) /\
  (Z.land (b2z dt) 0x7F = CRSFParam.STRING_TYPE ->
   tail = [] ->
   CRSFParam.process_frame self f now = Raised IndexError self).
Proof.
  intros Hs Hf Hname Hnm Hs2 Hstr2.
  rewrite (process_frame_single self f n Byte.x00 _ now Hf eq_refl Hs).
  destruct (find_decode_two n Byte.x00 pf dt Byte.x00 Byte.x00 name s2 tail
              nm str2 Hname Hnm Hs2 Hstr2 eq_refl eq_refl)
    as (Hn & H2 & Hsl & Hnth).
  cbv zeta in Hn, H2, Hsl, Hnth.
  unfold CRSFParam.decode_entry.
  change (slice (n :: Byte.x00 :: pf :: dt :: name ++ Byte.x00 :: s2
                   ++ Byte.x00 :: tail) 2 4) with [pf; dt].
  cbv zeta. rewrite Hn.
  split; intros Hty Htail; rewrite Hty.
  - change (CRSFParam.TEXT_SELECTION_TYPE =? CRSFParam.FOLDER_TYPE) with false.
    change (CRSFParam.TEXT_SELECTION_TYPE =? CRSFParam.COMMAND_TYPE) with false.
    change (CRSFParam.TEXT_SELECTION_TYPE =? CRSFParam.FLOAT_TYPE) with false.
    change (CRSFParam.TEXT_SELECTION_TYPE =? CRSFParam.STRING_TYPE) with false.
    change (CRSFParam.TEXT_SELECTION_TYPE =? CRSFParam.INFO_TYPE) with false.
    change (CRSFParam.TEXT_SELECTION_TYPE =? CRSFParam.TEXT_SELECTION_TYPE)
      with true.
    cbn [orb]. cbv iota. rewrite H2.
    replace (length (n :: Byte.x00 :: pf :: dt :: name) + 1 + length s2 + 5)%nat
      with (length (n :: Byte.x00 :: pf :: dt :: name) + 1 + length s2 + 1 + 4)%nat
      by lia.
    rewrite <- (Nat.add_0_r (_ + 1 + length s2 + 1)) at 1.
    rewrite Hsl. unfold slice. cbn [skipn Nat.sub].
    destruct tail as [|t0 [|t1 [|t2 [|t3 tl]]]]; try reflexivity.
    simpl in Htail. lia.
  - change (CRSFParam.STRING_TYPE =? CRSFParam.FOLDER_TYPE) with false.
    change (CRSFParam.STRING_TYPE =? CRSFParam.COMMAND_TYPE) with false.
    change (CRSFParam.STRING_TYPE =? CRSFParam.FLOAT_TYPE) with false.
    change (CRSFParam.STRING_TYPE =? CRSFParam.STRING_TYPE) with true.
    cbn [orb]. cbv iota. rewrite H2, Hnth, Htail. reflexivity.
Qed.

Lemma malformed_entry_raises_witness :
  CRSFParam.process_frame (CRSFParam.init 1 PrimFloat.zero)
    (entry_frame selection_short) PrimFloat.one
  = Raised ValueError (CRSFParam.init 1 PrimFloat.zero).
Proof.
  refine (proj1 (malformed_entry_raises (CRSFParam.init 1 PrimFloat.zero)
            (entry_frame selection_short) Byte.x01 Byte.x00 Byte.x09
            [Byte.x4d] [Byte.x61; Byte.x3b; Byte.x62]
            [Byte.x01; Byte.x00; Byte.x01] [77] [97; 59; 98] PrimFloat.one
            _ _ _ _ _ _) _ _).
  - reflexivity.
  - split; reflexivity.
  - repeat constructor; discriminate.
  - reflexivity.
  - repeat constructor; discriminate.
  - reflexivity.
  - reflexivity.
  - simpl. lia.
Defined.

(** * Further properties *)

(** ** The stream parser: what it keeps and what it yields *)

Lemma discard_to_sync_split (buf : list byte) :
  exists j, buf = j ++ parser.discard_to_sync buf.
Proof.
  induction buf as [|b r [j IH]]; [exists []; reflexivity|].
  simpl. destruct (b2z b =? CRSF.SYNC).
  - exists []. reflexivity.
  - exists (b :: j). simpl. now rewrite <- IH.
Qed.

Lemma interleave_junk (j : list byte) (js : list (list byte))
  (fs : list crsf_frame) (jl : list byte) :
  length js = length fs ->
  exists js' jl',
    length js' = length fs /\
    j ++ interleave js fs ++ jl = interleave js' fs ++ jl'.
Proof.
  intros Hl. destruct js as [|j1 js], fs as [|f fs]; try discriminate.
  - exists [], (j ++ jl). split; reflexivity.
  - exists ((j ++ j1) :: js), jl. split; [exact Hl|].
    simpl. now rewrite <- !app_assoc.
Qed.

Lemma quiescent_stable (fuel : nat) (buf : list byte) :
  quiescent buf -> parser.digest_loop (S fuel) buf = Some ([], buf).
Proof.
  intros [Hs|(b & l & r & -> & Hb & Hlen)].
  - now apply digest_loop_short.
  - rewrite digest_loop_S.
    destruct (length (b :: l :: r) <? 4)%nat; [reflexivity|].
    cbv zeta. rewrite discard_to_sync_sync by assumption.
    simpl nth_error. cbv beta iota.
    destruct (Nat.leb_spec (b2n l + 2) (length (b :: l :: r)));
      [lia|reflexivity].
Qed.

Lemma quiescent_length (buf : list byte) :
  quiescent buf -> (length buf <= 256)%nat.
Proof.
  intros [Hs|(b & l & r & -> & _ & Hlen)]; [lia|].
  pose proof (b2z_range l) as Hr. rewrite b2z_b2n in Hr. lia.
Qed.

(** The loop, with what it does to the bytes: the frames it yields lie in
    the buffer in order, what it leaves is the end of the buffer, and it
    leaves a buffer on which it has nothing more to do. *)
Lemma digest_loop_segments (fuel : nat) :
  forall buf, (length buf <= fuel)%nat ->
  exists fs rest js jl,
    parser.digest_loop fuel buf = Some (fs, rest) /\
    length js = length fs /\
    buf = interleave js fs ++ jl ++ rest /\
    quiescent rest.
Proof.
  induction fuel as [|fuel IH]; intros buf Hlen.
  - exists [], buf, [], []. rewrite digest_loop_short by lia.
    repeat split. left. lia.
  - rewrite digest_loop_S.
    destruct (Nat.ltb_spec (length buf) 4) as [Hs|H4].
    { exists [], buf, [], []. repeat split. now left. }
    pose proof (discard_to_sync_length buf) as Hd.
    pose proof (discard_to_sync_head buf) as Hh.
    destruct (discard_to_sync_split buf) as [j Hj].
    cbv zeta.
    destruct (parser.discard_to_sync buf) as [|b0 [|l r]] eqn:Eb;
      simpl nth_error; cbv beta iota.
    + exists [], [], [], j. repeat split.
      * now rewrite !app_nil_r in *.
      * left. simpl. lia.
    + exists [], [b0], [], j. repeat split; [exact Hj|].
      left. simpl. lia.
    + remember (b0 :: l :: r) as buf' eqn:Ebuf'.
      destruct (Nat.leb_spec (b2n l + 2) (length buf')) as [Hfl|Hfl].
      2:{ exists [], buf', [], j. repeat split; [exact Hj|].
          right. exists b0, l, r. subst buf'. auto. }
      assert (Hdrop : exists fs rest js jl,
                 parser.digest_loop fuel (skipn 1 buf') = Some (fs, rest) /\
                 length js = length fs /\
                 buf = interleave js fs ++ jl ++ rest /\
                 quiescent rest).
      { destruct (IH (skipn 1 buf')) as (fs & rest & js & jl & E & Hl & Hb & Hq).
        { rewrite length_skipn. subst buf'. simpl in *. lia. }
        destruct (interleave_junk (j ++ [b0]) js fs jl Hl)
          as (js2 & jl2 & Hl2 & Hi2).
        exists fs, rest, js2, jl2. repeat split; auto.
        transitivity ((j ++ [b0]) ++ interleave js fs ++ jl ++ rest).
        - rewrite Hj. subst buf'. cbn [skipn] in Hb. rewrite Hb.
          rewrite <- app_assoc. reflexivity.
        - rewrite (app_assoc (interleave js2 fs) jl2 rest), <- Hi2.
          rewrite <- !app_assoc. reflexivity. }
      destruct (nth_error buf' (b2n l + 2 - 1)) as [c|] eqn:Ec;
        [|exact Hdrop].
      destruct (b2z c =? calc_crc8 (slice buf' 2 (b2n l + 2 - 1)));
        [|exact Hdrop].
      destruct (IH (skipn (b2n l + 2) buf'))
        as (fs & rest & js & jl & E & Hl & Hb & Hq).
      { rewrite length_skipn. lia. }
      rewrite E.
      exists (mk_frame (firstn (b2n l + 2) buf') :: fs), rest, (j :: js), jl.
      split; [reflexivity|]. split; [simpl; now rewrite Hl|].
      split; [|exact Hq].
      cbn [interleave data]. rewrite Hj at 1. rewrite <- !app_assoc.
      f_equal. rewrite <- Hb. symmetry. apply firstn_skipn.
Qed.

(** X1.  Whatever [digest] is given, the frames it yields lie in the
    bytes it has (the buffer, then the data), in order and without
    overlap, and the buffer it keeps is the end of these bytes. *)
Theorem digest_yields_segments (p : crsf_parser) (d : list byte) :
  exists fs p' js jl,
    parser.digest p d = Some (fs, p') /\
    length js = length fs /\
    pdata p ++ d = interleave js fs ++ jl ++ pdata p'.
Proof.
  unfold parser.digest.
  destruct (digest_loop_segments (S (length (pdata p ++ d))) (pdata p ++ d))
    as (fs & rest & js & jl & E & Hl & Hb & _); [lia|].
  rewrite E. exists fs, (mk_parser rest (silent p)), js, jl. auto.
Qed.

(** X2.  After a call of [digest] the parser holds at most 256 bytes,
    however many it was given. *)
Theorem digest_buffer_bounded (p : crsf_parser) (d : list byte) :
  exists fs p',
    parser.digest p d = Some (fs, p') /\ (length (pdata p') <= 256)%nat.
Proof.
  unfold parser.digest.
  destruct (digest_loop_segments (S (length (pdata p ++ d))) (pdata p ++ d))
    as (fs & rest & js & jl & E & _ & _ & Hq); [lia|].
  rewrite E. exists fs, (mk_parser rest (silent p)).
  split; [reflexivity|]. now apply quiescent_length.
Qed.

(** X3.  A parser that [digest] has returned is at rest: a further call
    with no data yields no frame and leaves it as it is. *)
Theorem digest_then_nothing (p : crsf_parser) (d : list byte) :
  exists fs p',
    parser.digest p d = Some (fs, p') /\
    parser.digest p' [] = Some ([], p').
Proof.
  unfold parser.digest.
  destruct (digest_loop_segments (S (length (pdata p ++ d))) (pdata p ++ d))
    as (fs & rest & js & jl & E & _ & _ & Hq); [lia|].
  rewrite E. exists fs, (mk_parser rest (silent p)).
  split; [reflexivity|]. cbn [pdata silent].
  rewrite app_nil_r, quiescent_stable by assumption. reflexivity.
Qed.

(** ** Building frames and reading them back *)

Lemma slice_to_last_body {A} (h : list A) (body : list A) (c : A) :
  slice_to_last (h ++ body ++ [c]) (length h) = body.
Proof.
  unfold slice_to_last. rewrite skipn_app_exact, !length_app. cbn [length].
  replace (length h + (length body + 1) - 1 - length h)%nat
    with (length body) by lia.
  apply firstn_app_exact.
Qed.

(** The frame that [create_frame] builds, read through the accessors of
    [crsf_frame]. *)
Lemma create_frame_fields (t : byte) (rest : list byte) (f : crsf_frame) :
  create_frame (t :: rest) = Some f ->
  frame.type f = Some (b2z t) /\
  frame.len f = Some (Z.of_nat (length (data f))) /\
  frame.is_extended f = Some (frame.extended_type (b2z t)) /\
  (frame.extended_type (b2z t) = false ->
   frame.payload f = Some rest /\
   frame.origin f = Some None /\ frame.destination f = Some None) /\
  (frame.extended_type (b2z t) = true ->
   forall dest orig payload, rest = dest :: orig :: payload ->
   frame.payload f = Some payload /\
   frame.origin f = Some (Some (b2z orig)) /\
   frame.destination f = Some (Some (b2z dest))).
Proof.
  unfold create_frame. intros E.
  destruct (z2b (Z.of_nat (length (t :: rest)) + 2 - 1)) as [l|] eqn:El;
    [|discriminate].
  destruct (z2b (calc_crc8 (t :: rest))) as [c|]; [|discriminate].
  injection E as <-. apply z2b_b2z in El.
  split; [reflexivity|]. split.
  { unfold frame.len. cbn [data nth_error option_map]. f_equal.
    rewrite El. cbn [length]. rewrite length_app. cbn [length]. lia. }
  split; [reflexivity|].
  unfold frame.payload, frame.origin, frame.destination, frame.is_extended,
    frame.type.
  cbn [data nth_error option_map app].
  split; intros Hx; rewrite Hx.
  - split; [|split; reflexivity]. f_equal.
    exact (slice_to_last_body [Byte.xc8; l; t] rest c).
  - intros dest orig payload ->. split; [|split; reflexivity]. f_equal.
    exact (slice_to_last_body [Byte.xc8; l; t; dest; orig] payload c).
Qed.

(** A frame that [create_frame] builds, fed whole to a fresh parser. *)
Lemma create_frame_digest (s : bool) (body : list byte) (f : crsf_frame) :
  create_frame body = Some f -> body <> [] ->
  parser.digest (parser.init s) (data f) = Some ([f], parser.init s).
Proof.
  intros E Hne.
  rewrite <- (app_nil_l (data f)).
  apply digest_noise_frame; auto. eapply create_frame_valid; eauto.
Qed.

(** X4.  An extended frame survives the trip: for a type byte in
    0x28..0x96 or 0xAA and a payload of at most 251 bytes, [create_frame]
    builds a frame from type, destination, origin and payload; a fresh
    parser fed its bytes yields exactly this frame, and its accessors give
    back the type, the destination, the origin and the payload. *)
Theorem extended_frame_roundtrip (s : bool) (t dest orig : byte)
  (payload : list byte) :
  frame.extended_type (b2z t) = true -> (length payload <= 251)%nat ->
  exists f,
    create_frame (t :: dest :: orig :: payload) = Some f /\
    parser.digest (parser.init s) (data f) = Some ([f], parser.init s) /\
    frame.type f = Some (b2z t) /\
    frame.is_extended f = Some true /\
    frame.destination f = Some (Some (b2z dest)) /\
    frame.origin f = Some (Some (b2z orig)) /\
    frame.payload f = Some payload.
Proof.
  intros Hx Hlen.
  destruct (create_frame_some (t :: dest :: orig :: payload)) as [f E];
    [simpl; lia|].
  destruct (create_frame_fields t (dest :: orig :: payload) f E)
    as (Ht & _ & Hie & _ & Hext).
  destruct (Hext Hx dest orig payload eq_refl) as (Hp & Ho & Hd).
  exists f. rewrite Hx in Hie.
  repeat split; auto. apply (create_frame_digest s _ f E). discriminate.
Qed.

Lemma extended_frame_roundtrip_witness :
  exists f,
    create_frame [Byte.x2b; Byte.xc8; Byte.xee; Byte.x01; Byte.x00] = Some f /\
    parser.digest (parser.init true) (data f) = Some ([f], parser.init true) /\
    frame.type f = Some 0x2b /\
    frame.is_extended f = Some true /\
    frame.destination f = Some (Some 0xc8) /\
    frame.origin f = Some (Some 0xee) /\
    frame.payload f = Some [Byte.x01; Byte.x00].
Proof.
  apply (extended_frame_roundtrip true Byte.x2b Byte.xc8 Byte.xee
           [Byte.x01; Byte.x00]).
  - reflexivity.
  - simpl. lia.
Defined.

(** X5.  A frame of another type carries no addresses: for a type byte
    outside 0x28..0x96 and other than 0xAA and at most 253 bytes after it,
    the frame that [create_frame] builds and a fresh parser yields back has
    these bytes as its payload, and its origin and destination are
    [None]. *)
Theorem plain_frame_roundtrip (s : bool) (t : byte) (rest : list byte) :
  frame.extended_type (b2z t) = false -> (length rest <= 253)%nat ->
  exists f,
    create_frame (t :: rest) = Some f /\
    parser.digest (parser.init s) (data f) = Some ([f], parser.init s) /\
    frame.type f = Some (b2z t) /\
    frame.is_extended f = Some false /\
    frame.destination f = Some None /\
    frame.origin f = Some None /\
    frame.payload f = Some rest.
Proof.
  intros Hx Hlen.
  destruct (create_frame_some (t :: rest)) as [f E]; [simpl; lia|].
  destruct (create_frame_fields t rest f E) as (Ht & _ & Hie & Hplain & _).
  destruct (Hplain Hx) as (Hp & Ho & Hd).
  exists f. rewrite Hx in Hie.
  repeat split; auto. apply (create_frame_digest s _ f E). discriminate.
Qed.

Lemma plain_frame_roundtrip_witness :
  exists f,
    create_frame [Byte.x14; Byte.x32; Byte.x3c] = Some f /\
    parser.digest (parser.init true) (data f) = Some ([f], parser.init true) /\
    frame.type f = Some 0x14 /\
    frame.is_extended f = Some false /\
    frame.destination f = Some None /\
    frame.origin f = Some None /\
    frame.payload f = Some [Byte.x32; Byte.x3c].
Proof.
  apply (plain_frame_roundtrip true Byte.x14 [Byte.x32; Byte.x3c]).
  - reflexivity.
  - simpl. lia.
Defined.

(** X6.  The frame builders for PING, PARAM_READ and PARAM_WRITE never
    fail (a written value of at most 250 bytes), and the frame each builds
    carries the given destination and origin and, as its payload, nothing,
    the parameter number and the chunk number, or the parameter number and
    the value. *)
Theorem frame_builders (dest orig param_num chunk : byte)
  (value : list byte) :
  (length value <= 250)%nat ->
  exists ping read write,
    create_ping_frame dest orig = Some ping /\
    create_param_read_frame dest param_num chunk orig = Some read /\
    create_param_write_frame dest param_num value orig = Some write /\
    frame.type ping = Some CRSF.MSG_TYPE_PING /\
    frame.type read = Some CRSF.MSG_TYPE_PARAM_READ /\
    frame.type write = Some CRSF.MSG_TYPE_PARAM_WRITE /\
    frame.payload ping = Some [] /\
    frame.payload read = Some [param_num; chunk] /\
    frame.payload write = Some (param_num :: value) /\
    Forall (fun f => frame.destination f = Some (Some (b2z dest)) /\
                     frame.origin f = Some (Some (b2z orig)) /\
                     valid_frame f)
           [ping; read; write].
Proof.
  intros Hlen.
  unfold create_ping_frame, create_param_read_frame, create_param_write_frame.
  cbn [app].
  destruct (create_frame_some [Byte.x28; dest; orig]) as [ping Ep];
    [simpl; lia|].
  destruct (create_frame_some [Byte.x2c; dest; orig; param_num; chunk])
    as [read Er]; [simpl; lia|].
  destruct (create_frame_some (Byte.x2d :: dest :: orig :: param_num :: value))
    as [write Ew]; [simpl; lia|].
  destruct (create_frame_fields _ _ _ Ep) as (Tp & _ & _ & _ & Xp).
  destruct (create_frame_fields _ _ _ Er) as (Tr & _ & _ & _ & Xr).
  destruct (create_frame_fields _ _ _ Ew) as (Tw & _ & _ & _ & Xw).
  destruct (Xp eq_refl dest orig [] eq_refl) as (Pp & Op & Dp).
  destruct (Xr eq_refl dest orig [param_num; chunk] eq_refl) as (Pr & Or & Dr).
  destruct (Xw eq_refl dest orig (param_num :: value) eq_refl)
    as (Pw & Ow & Dw).
  exists ping, read, write.
  repeat (split; [assumption || reflexivity|]).
  repeat constructor; auto; eapply create_frame_valid; eauto; discriminate.
Qed.

Lemma frame_builders_witness :
  exists ping read write,
    create_ping_frame Byte.x00 Byte.xc8 = Some ping /\
    create_param_read_frame Byte.x00 Byte.x05 Byte.x01 Byte.xc8 = Some read /\
    create_param_write_frame Byte.x00 Byte.x05 [Byte.x07] Byte.xc8
    = Some write /\
    frame.type ping = Some CRSF.MSG_TYPE_PING /\
    frame.type read = Some CRSF.MSG_TYPE_PARAM_READ /\
    frame.type write = Some CRSF.MSG_TYPE_PARAM_WRITE /\
    frame.payload ping = Some [] /\
    frame.payload read = Some [Byte.x05; Byte.x01] /\
    frame.payload write = Some [Byte.x05; Byte.x07] /\
    Forall (fun f => frame.destination f = Some (Some (b2z Byte.x00)) /\
                     frame.origin f = Some (Some (b2z Byte.xc8)) /\
                     valid_frame f)
           [ping; read; write].
Proof.
  apply (frame_builders Byte.x00 Byte.xc8 Byte.x05 Byte.x01 [Byte.x07]).
  simpl. lia.
Defined.

(** ** The checksum *)

Lemma byte_values_In (z : Z) : 0 <= z < 256 -> In z byte_values.
Proof.
  intros Hz. unfold byte_values. apply in_map_iff.
  exists (Z.to_nat z). split; [lia|]. apply in_seq. lia.
Qed.

Lemma calc_adds_byte_1 : calc_adds_byte crsf_crc8.POLYNOM_1 = true.
Proof. vm_compute. reflexivity. Qed.

Lemma calc_separates_1 : calc_separates crsf_crc8.POLYNOM_1 = true.
Proof. vm_compute. reflexivity. Qed.

Lemma calc_adds (v b : Z) :
  0 <= v < 256 -> 0 <= b < 256 ->
  crsf_crc8._calc crsf_crc8.POLYNOM_1 v b
  = Z.lxor (crsf_crc8._calc crsf_crc8.POLYNOM_1 v 0) b.
Proof.
  intros Hv Hb. pose proof calc_adds_byte_1 as T. unfold calc_adds_byte in T.
  rewrite forallb_forall in T. specialize (T v (byte_values_In v Hv)).
  rewrite forallb_forall in T. specialize (T b (byte_values_In b Hb)).
  now apply Z.eqb_eq.
Qed.

Lemma calc_zero_inj (v w : Z) :
  0 <= v < 256 -> 0 <= w < 256 ->
  crsf_crc8._calc crsf_crc8.POLYNOM_1 v 0
  = crsf_crc8._calc crsf_crc8.POLYNOM_1 w 0 -> v = w.
Proof.
  intros Hv Hw E. pose proof calc_separates_1 as T. unfold calc_separates in T.
  rewrite forallb_forall in T. specialize (T v (byte_values_In v Hv)).
  rewrite forallb_forall in T. specialize (T w (byte_values_In w Hw)).
  rewrite E, Z.eqb_refl in T. now apply Z.eqb_eq.
Qed.

Lemma b2z_injective (a b : byte) : b2z a = b2z b -> a = b.
Proof.
  intros E. pose proof (b2z_z2b a) as Ha. rewrite E, b2z_z2b in Ha.
  congruence.
Qed.

Lemma calc_inj (v w : Z) (a : byte) :
  0 <= v < 256 -> 0 <= w < 256 ->
  crsf_crc8._calc crsf_crc8.POLYNOM_1 v (b2z a)
  = crsf_crc8._calc crsf_crc8.POLYNOM_1 w (b2z a) -> v = w.
Proof.
  intros Hv Hw E. pose proof (b2z_range a).
  rewrite (calc_adds v), (calc_adds w) in E by assumption.
  apply calc_zero_inj; auto.
  apply (f_equal (fun x => Z.lxor x (b2z a))) in E. cbv beta in E.
  rewrite !Z.lxor_assoc, Z.lxor_nilpotent, !Z.lxor_0_r in E. exact E.
Qed.

Lemma crc_digest_range (v : Z) (d : list byte) :
  0 <= v < 256 -> 0 <= crsf_crc8.digest crsf_crc8.POLYNOM_1 v d < 256.
Proof.
  revert v. induction d as [|x d IH]; intros v Hv; [exact Hv|].
  apply IH, _calc_range.
Qed.

Lemma crc_digest_app (v : Z) (d e : list byte) :
  crsf_crc8.digest crsf_crc8.POLYNOM_1 v (d ++ e)
  = crsf_crc8.digest crsf_crc8.POLYNOM_1
      (crsf_crc8.digest crsf_crc8.POLYNOM_1 v d) e.
Proof. apply fold_left_app. Qed.

Lemma crc_digest_inj (d : list byte) :
  forall v w, 0 <= v < 256 -> 0 <= w < 256 ->
  crsf_crc8.digest crsf_crc8.POLYNOM_1 v d
  = crsf_crc8.digest crsf_crc8.POLYNOM_1 w d -> v = w.
Proof.
  induction d as [|x d IH]; intros v w Hv Hw E; [exact E|].
  apply (calc_inj v w x Hv Hw).
  apply IH; auto using _calc_range.
Qed.

(** X7.  The checksum of a body followed by its own checksum byte is
    zero: the CRC of every byte string is a byte, and running [calc_crc8]
    over the string with that byte appended gives 0. *)
Theorem crc_residue_zero (d : list byte) :
  exists c, z2b (calc_crc8 d) = Some c /\ calc_crc8 (d ++ [c]) = 0.
Proof.
  destruct (z2b_some (calc_crc8 d) (calc_crc8_range d)) as [c Ec].
  exists c. split; [exact Ec|]. apply z2b_b2z in Ec.
  unfold calc_crc8, crsf_crc8.finish in *.
  rewrite crc_digest_app.
  set (v := crsf_crc8.digest crsf_crc8.POLYNOM_1 crsf_crc8.RESET_VALUE d) in *.
  assert (Hv : 0 <= v < 256) by (apply crc_digest_range; cbv; split; congruence).
  cbn [crsf_crc8.digest fold_left].
  rewrite (calc_adds v (b2z c)) by (auto using b2z_range).
  change crsf_crc8.FINISH_VALUE with 0 in *. rewrite Ec, Z.lxor_nilpotent.
  reflexivity.
Qed.

Lemma crc_byte_change (pre post : list byte) (a b : byte) :
  a <> b -> calc_crc8 (pre ++ a :: post) <> calc_crc8 (pre ++ b :: post).
Proof.
  intros Hab E. apply Hab. unfold calc_crc8, crsf_crc8.finish in E.
  rewrite !crc_digest_app in E.
  set (v := crsf_crc8.digest crsf_crc8.POLYNOM_1 crsf_crc8.RESET_VALUE pre) in *.
  assert (Hv : 0 <= v < 256) by (apply crc_digest_range; cbv; split; congruence).
  cbn [crsf_crc8.digest fold_left] in E.
  change crsf_crc8.FINISH_VALUE with 0 in E.
  apply calc_zero_inj in E; try (apply crc_digest_range; apply _calc_range).
  apply crc_digest_inj in E; try apply _calc_range.
  pose proof (b2z_range a). pose proof (b2z_range b).
  rewrite (calc_adds v (b2z a)), (calc_adds v (b2z b)) in E by assumption.
  apply b2z_injective.
  apply (f_equal (Z.lxor (crsf_crc8._calc crsf_crc8.POLYNOM_1 v 0))) in E.
  rewrite <- !Z.lxor_assoc, Z.lxor_nilpotent, !Z.lxor_0_l in E. exact E.
Qed.

(** X8.  The checksum tells apart two byte strings that differ in one
    byte: replacing a single byte by a different one, anywhere, changes
    [calc_crc8]. *)
Theorem crc_detects_byte_change (pre post : list byte) (a b : byte) :
  a <> b -> calc_crc8 (pre ++ a :: post) <> calc_crc8 (pre ++ b :: post).
Proof. exact (crc_byte_change pre post a b). Qed.

Lemma crc_detects_byte_change_witness :
  calc_crc8 ([Byte.x28] ++ Byte.x00 :: [Byte.xea])
  <> calc_crc8 ([Byte.x28] ++ Byte.x01 :: [Byte.xea]).
Proof.
  apply (crc_detects_byte_change [Byte.x28] [Byte.xea] Byte.x00 Byte.x01).
  discriminate.
Defined.

Lemma interleave_In_length (fs : list crsf_frame) :
  forall js f, length js = length fs -> In f fs ->
  (length (data f) <= length (interleave js fs))%nat.
Proof.
  induction fs as [|g fs IH]; intros js f Hl Hin; [destruct Hin|].
  destruct js as [|j js]; [discriminate|].
  cbn [interleave]. rewrite !length_app.
  destruct Hin as [<-|Hin]; [lia|].
  specialize (IH js f (f_equal Nat.pred Hl) Hin). lia.
Qed.

(** X9.  A frame with one byte of its body changed is not delivered: when
    a fresh parser is given the bytes of a well-formed frame in which one
    byte between LEN and CRC was replaced by a different one, every frame
    it yields is shorter than what it was given. *)
Theorem corrupted_body_not_delivered (s : bool) (l c a b : byte)
  (pre post : list byte) :
  valid_frame (mk_frame (frame_bytes l (pre ++ a :: post) c)) -> a <> b ->
  exists fs p',
    parser.digest (parser.init s) (frame_bytes l (pre ++ b :: post) c)
    = Some (fs, p') /\
    Forall (fun f => (length (data f)
                      < length (frame_bytes l (pre ++ b :: post) c))%nat) fs.
Proof.
  intros (l0 & body & c0 & Hd & Hl & _ & Hc) Hab.
  unfold frame_bytes in *. cbn [data] in Hd.
  injection Hd as <- Hd. apply app_inj_tail in Hd. destruct Hd as [<- <-].
  unfold parser.digest, parser.init. cbn [pdata silent app].
  set (body' := pre ++ b :: post).
  assert (Hlen : length body' = length (pre ++ a :: post)).
  { unfold body'. rewrite !length_app. reflexivity. }
  assert (H1 : (1 <= length body')%nat).
  { unfold body'. rewrite length_app. simpl. lia. }
  cbn [length]. rewrite digest_loop_bad_crc.
  2:{ rewrite Hl. lia. }
  2:{ rewrite Hc. apply crc_byte_change. congruence. }
  2:{ cbn [length]. rewrite length_app. simpl. lia. }
  destruct (digest_loop_segments (S (S (length (body' ++ [c]))))
              (l :: body' ++ [c]))
    as (fs & rest & js & jl & E & Hjs & Hb & _); [simpl; lia|].
  rewrite E. exists fs, (mk_parser rest s). split; [reflexivity|].
  apply Forall_forall. intros f Hin.
  pose proof (interleave_In_length fs js f Hjs Hin) as Hle.
  apply (f_equal (@length byte)) in Hb. rewrite !length_app in Hb.
  cbn [length] in Hb. lia.
Qed.

Lemma corrupted_body_not_delivered_witness :
  exists fs p',
    parser.digest (parser.init true)
      (frame_bytes Byte.x04 ([Byte.x28] ++ Byte.x01 :: [Byte.xea]) Byte.x54)
    = Some (fs, p') /\
    Forall (fun f => (length (data f)
                      < length (frame_bytes Byte.x04
                                  ([Byte.x28] ++ Byte.x01 :: [Byte.xea])
                                  Byte.x54))%nat) fs.
Proof.
  apply (corrupted_body_not_delivered true Byte.x04 Byte.x54 Byte.x00 Byte.x01
           [Byte.x28] [Byte.xea]).
  - exists Byte.x04, [Byte.x28; Byte.x00; Byte.xea], Byte.x54.
    repeat split; try reflexivity. discriminate.
  - discriminate.
Defined.

(** ** The int32 codec, both ways *)

Lemma byte_of_land (z : Z) :
  exists b, z2b (Z.land z 0xFF) = Some b /\ b2z b = z mod 256.
Proof.
  assert (E : Z.land z 0xFF = z mod 256).
  { change 0xFF with (Z.ones 8). now rewrite Z.land_ones by lia. }
  destruct (z2b_some (Z.land z 0xFF)) as [b Hb].
  { rewrite E. apply Z.mod_pos_bound. lia. }
  exists b. split; [exact Hb|]. apply z2b_b2z in Hb. congruence.
Qed.

(** X10.  Encoding, then decoding: the four values of [encode_int32] are
    bytes for every integer [v], and [decode_int32] makes of them
    [v mod 2^32], the residue of [v] in [0, 2^32). *)
Theorem int32_encode_decode (v : Z) :
  exists d0 d1 d2 d3,
    map z2b (CRSF.encode_int32 v) = [Some d0; Some d1; Some d2; Some d3] /\
    CRSF.decode_int32 [d0; d1; d2; d3] = Some (v mod 2 ^ 32).
Proof.
  unfold CRSF.encode_int32. cbn [map].
  destruct (byte_of_land (Z.shiftr v 24)) as (d0 & E0 & H0).
  destruct (byte_of_land (Z.shiftr v 16)) as (d1 & E1 & H1).
  destruct (byte_of_land (Z.shiftr v 8)) as (d2 & E2 & H2).
  destruct (byte_of_land v) as (d3 & E3 & H3).
  exists d0, d1, d2, d3. rewrite E0, E1, E2, E3. split; [reflexivity|].
  rewrite decode_int32_value, H0, H1, H2, H3. f_equal.
  rewrite !Z.shiftr_div_pow2 by lia.
  change (2 ^ 24) with 16777216. change (2 ^ 16) with 65536.
  change (2 ^ 8) with 256. change (2 ^ 32) with 4294967296.
  Z.div_mod_to_equations. lia.
Qed.

(** X11.  Decoding, then encoding: [encode_int32] gives back the four
    bytes that [decode_int32] was given. *)
Theorem int32_decode_encode (d0 d1 d2 d3 : byte) (rest : list byte) :
  exists v,
    CRSF.decode_int32 (d0 :: d1 :: d2 :: d3 :: rest) = Some v /\
    CRSF.encode_int32 v = [b2z d0; b2z d1; b2z d2; b2z d3].
Proof.
  eexists. split; [apply decode_int32_value|].
  pose proof (b2z_range d0). pose proof (b2z_range d1).
  pose proof (b2z_range d2). pose proof (b2z_range d3).
  unfold CRSF.encode_int32. change 0xFF with (Z.ones 8).
  rewrite !Z.land_ones, !Z.shiftr_div_pow2 by lia.
  change (2 ^ 24) with 16777216. change (2 ^ 16) with 65536.
  change (2 ^ 8) with 256.
  repeat f_equal; Z.div_mod_to_equations; lia.
Qed.

(** ** PPM channels, for every payload *)

Lemma int2_fold_range (s : list bool) :
  forall acc, 0 <= acc ->
  acc * 2 ^ Z.of_nat (length s)
  <= fold_left (fun a (d : bool) => 2 * a + (if d then 1 else 0)) s acc
  < (acc + 1) * 2 ^ Z.of_nat (length s).
Proof.
  induction s as [|d s IH]; intros acc Hacc.
  - simpl. lia.
  - cbn [fold_left length]. rewrite Nat2Z.inj_succ, Z.pow_succ_r by lia.
    specialize (IH (2 * acc + (if d then 1 else 0))).
    assert (H2 : 0 < 2 ^ Z.of_nat (length s)) by (apply Z.pow_pos_nonneg; lia).
    destruct d; nia.
Qed.

Lemma int2_range (s : list bool) :
  (length s <= 11)%nat -> 0 <= int2 s < 2048.
Proof.
  intros Hs. pose proof (int2_fold_range s 0 (Z.le_refl 0)) as H.
  fold (int2 s) in H.
  assert (2 ^ Z.of_nat (length s) <= 2 ^ 11)
    by (apply Z.pow_le_mono_r; lia).
  change (2 ^ 11) with 2048 in *. lia.
Qed.

Lemma ticks_to_us_range (x : Z) :
  0 <= x < 2048 -> 880 <= ticks_to_us x <= 2159.
Proof.
  intros Hx. unfold ticks_to_us. Z.div_mod_to_equations. lia.
Qed.

(** X12.  [ppm_channels_decode] on any payload: the assertion fails
    exactly when the number of bytes is not a multiple of 11; otherwise,
    for 11 k bytes, it returns 8 k - 1 values (none for the empty
    payload), each between 880 and 2159 microseconds. *)
Theorem ppm_channels_decode_any (d : list byte) :
  match ppm_channels_decode d with
  | None => (length d mod 11 <> 0)%nat
  | Some us =>
      (length d mod 11 = 0)%nat /\
      length us = (8 * (length d / 11) - 1)%nat /\
      Forall (fun u => 880 <= u <= 2159) us
  end.
Proof.
  unfold ppm_channels_decode.
  rewrite bin_bytes_length, length_rev.
  destruct (Nat.eqb_spec ((8 * length d) mod 11) 0) as [E|E].
  - assert (Hm : (length d mod 11 = 0)%nat).
    { pose proof (Nat.div_mod_eq (8 * length d) 11).
      pose proof (Nat.div_mod_eq (length d) 11).
      pose proof (Nat.mod_upper_bound (length d) 11). lia. }
    split; [exact Hm|]. split.
    + rewrite !length_map. unfold range_down.
      pose proof (Nat.div_mod_eq (length d) 11) as Hd. rewrite Hm in Hd.
      set (k := (length d / 11)%nat) in *.
      replace (Z.of_nat (8 * length d)) with (88 * Z.of_nat k) by lia.
      destruct (Z.ltb_spec 0 (88 * Z.of_nat k - 11)) as [Hk|Hk].
      * rewrite length_map, length_seq.
        assert ((88 * Z.of_nat k - 11 - 0 - 1) / 11 = 8 * Z.of_nat k - 2)
          by (Z.div_mod_to_equations; lia).
        lia.
      * rewrite length_map, length_seq. simpl. lia.
    + apply Forall_forall. intros u Hu.
      apply in_map_iff in Hu as (x & <- & Hx).
      apply in_map_iff in Hx as (o & <- & _).
      apply ticks_to_us_range, int2_range.
      unfold slice. rewrite length_firstn. lia.
  - intros Hm. apply E.
    pose proof (Nat.div_mod_eq (length d) 11) as Hd. rewrite Hm in Hd.
    replace (8 * length d)%nat with ((8 * (length d / 11)) * 11)%nat by lia.
    apply Nat.Div0.mod_mul.
Qed.

(** ** DEVICE_INFO frames *)

Lemma skipn_past {A} (pre : list A) (x : A) (post : list A) :
  skipn (length pre + 1) (pre ++ x :: post) = post.
Proof.
  replace (length pre + 1)%nat with (length (pre ++ [x]))
    by (rewrite length_app; reflexivity).
  change (pre ++ x :: post) with (pre ++ [x] ++ post).
  rewrite app_assoc. apply skipn_app_exact.
Qed.

Lemma be32_lor_sum (a b c d : byte) :
  Z.lor (Z.lor (Z.lor (Z.shiftl (b2z a) 24) (Z.shiftl (b2z b) 16))
               (Z.shiftl (b2z c) 8)) (b2z d)
  = word_value (a, b, c, d).
Proof.
  pose proof (decode_int32_value a b c d []) as H.
  unfold CRSF.decode_int32 in H. unfold word_value.
  set (u := Z.lor _ (b2z d)) in *.
  assert (Hsome : forall x y : Z, Some x = Some y -> x = y)
    by (intros; congruence).
  destruct (Z.land u _ =? 0); apply Hsome in H; [exact H|].
  pose proof (Z.add_lnot_diag u). lia.
Qed.

(** [parse] on a frame of type DEVICE_INFO whose payload is laid out as
    the protocol has it. *)
Lemma parse_device_info (f : crsf_frame) (nm : list byte) (s : str)
  (sn hw sw : byte * byte * byte * byte) (pc pv : byte) :
  frame.type f = Some CRSF.MSG_TYPE_DEVICE_INFO ->
  frame.payload f = Some (device_info_payload nm sn hw sw pc pv) ->
  Forall (fun b => b2z b <> 0) nm -> utf8_decode nm = Some s ->
  crsf_frame_parse f
  = inr (mk_device_info s (word_value sn) (word_value hw) (word_value sw)
                        (b2z pc) (b2z pv)).
Proof.
  intros Ht Hp Hnm Hs. unfold crsf_frame_parse, device_info_payload.
  rewrite Ht, Hp. unfold device_info_payload.
  change (CRSF.MSG_TYPE_DEVICE_INFO =? CRSF.MSG_TYPE_DEVICE_INFO) with true.
  cbv iota.
  rewrite (index_sentinel 0 nm _ Byte.x00 Hnm eq_refl).
  rewrite firstn_app_exact, Hs.
  rewrite skipn_past.
  destruct sn as [[[s0 s1] s2] s3], hw as [[[h0 h1] h2] h3],
    sw as [[[w0 w1] w2] w3].
  cbn [word_bytes app].
  unfold be32_at. cbn [nth_error Nat.add].
  now rewrite !be32_lor_sum.
Qed.

(** A DEVICE_INFO frame built by [create_frame], parsed, and the device
    made from it. *)
Lemma device_info_built (dest orig : byte) (nm : list byte) (s : str)
  (sn hw sw : byte * byte * byte * byte) (pc pv : byte) :
  Forall (fun b => b2z b <> 0) nm -> utf8_decode nm = Some s ->
  (length nm <= 236)%nat ->
  exists f d,
    create_frame (Byte.x29 :: dest :: orig
                    :: device_info_payload nm sn hw sw pc pv) = Some f /\
    crsf_frame_parse f
    = inr (mk_device_info s (word_value sn) (word_value hw) (word_value sw)
                          (b2z pc) (b2z pv)) /\
    CRSFDevice.init (Some f) = inr d /\
    CRSFDevice.origin d = b2z orig /\
    CRSFDevice.name d = VStr s /\
    CRSFDevice.menu d = repeat None (b2n pc + 1) /\
    CRSFDevice.match_ d f = inr true.
Proof.
  intros Hnm Hs Hlen.
  set (payload := device_info_payload nm sn hw sw pc pv).
  assert (Hpl : length payload = (length nm + 15)%nat).
  { unfold payload, device_info_payload.
    destruct sn as [[[s0 s1] s2] s3], hw as [[[h0 h1] h2] h3],
      sw as [[[w0 w1] w2] w3].
    rewrite length_app. reflexivity. }
  destruct (create_frame_some (Byte.x29 :: dest :: orig :: payload))
    as [f E]; [simpl; lia|].
  destruct (create_frame_fields _ _ f E) as (Ht & _ & _ & _ & Hext).
  destruct (Hext eq_refl dest orig payload eq_refl) as (Hp & Ho & _).
  change (b2z Byte.x29) with CRSF.MSG_TYPE_DEVICE_INFO in Ht.
  pose proof (parse_device_info f nm s sn hw sw pc pv Ht Hp Hnm Hs) as Hparse.
  eexists f, _. split; [exact E|]. split; [exact Hparse|].
  unfold CRSFDevice.init, CRSFDevice.match_. rewrite Ht, Hparse, Ho.
  change (CRSF.MSG_TYPE_DEVICE_INFO =? CRSF.MSG_TYPE_DEVICE_INFO) with true.
  cbv iota. split; [reflexivity|].
  cbn [CRSFDevice.origin CRSFDevice.name CRSFDevice.menu CRSFDevice.sn
       CRSFDevice.hwid CRSFDevice.fwid CRSFDevice.param_count
       CRSFDevice.param_ver di_name di_sn di_hw_id di_sw_id di_param_count
       di_version].
  split; [reflexivity|]. split; [reflexivity|]. split.
  - f_equal. rewrite b2z_b2n. lia.
  - rewrite !Z.eqb_refl.
    destruct (list_eq_dec Z.eq_dec s s); [reflexivity|congruence].
Qed.

(** X13.  DEVICE_INFO round trip: a frame of type DEVICE_INFO built by
    [create_frame] from a name without NUL that decodes as UTF-8 (at most
    236 bytes), three 32-bit words, a parameter count and a version is
    parsed by [parse] to the name and these values, the words read
    big-endian; the device made from the frame has the frame's origin,
    one empty menu slot more than the parameter count, and matches the
    frame. *)
Theorem device_info_roundtrip (dest orig : byte) (nm : list byte) (s : str)
  (sn hw sw : byte * byte * byte * byte) (pc pv : byte) :
  Forall (fun b => b2z b <> 0) nm -> utf8_decode nm = Some s ->
  (length nm <= 236)%nat ->
  exists f d,
    create_frame (Byte.x29 :: dest :: orig
                    :: device_info_payload nm sn hw sw pc pv) = Some f /\
    crsf_frame_parse f
    = inr (mk_device_info s (word_value sn) (word_value hw) (word_value sw)
                          (b2z pc) (b2z pv)) /\
    CRSFDevice.init (Some f) = inr d /\
    CRSFDevice.origin d = b2z orig /\
    CRSFDevice.name d = VStr s /\
    CRSFDevice.menu d = repeat None (b2n pc + 1) /\
    CRSFDevice.match_ d f = inr true.
Proof. exact (device_info_built dest orig nm s sn hw sw pc pv). Qed.

Lemma device_info_roundtrip_witness :
  exists f d,
    create_frame (Byte.x29 :: Byte.xea :: Byte.xee
                    :: device_info_payload [Byte.x54; Byte.x58]
                         (Byte.x00, Byte.x00, Byte.x00, Byte.x01)
                         (Byte.x00, Byte.x00, Byte.x01, Byte.x00)
                         (Byte.x00, Byte.x01, Byte.x00, Byte.x00)
                         Byte.x03 Byte.x02) = Some f /\
    crsf_frame_parse f = inr (mk_device_info [84; 88] 1 256 65536 3 2) /\
    CRSFDevice.init (Some f) = inr d /\
    CRSFDevice.origin d = 0xee /\
    CRSFDevice.name d = VStr [84; 88] /\
    CRSFDevice.menu d = [None; None; None; None] /\
    CRSFDevice.match_ d f = inr true.
Proof.
  apply (device_info_roundtrip Byte.xea Byte.xee [Byte.x54; Byte.x58] [84; 88]
           (Byte.x00, Byte.x00, Byte.x00, Byte.x01)
           (Byte.x00, Byte.x00, Byte.x01, Byte.x00)
           (Byte.x00, Byte.x01, Byte.x00, Byte.x00) Byte.x03 Byte.x02).
  - repeat constructor; discriminate.
  - reflexivity.
  - simpl. lia.
Defined.

(** X14.  The frame of [create_device_info_frame], for every destination
    and origin: it is built, [parse] reads from it the name "Agent
    Python", the serial number 0x12345678, the hardware id 0x01234502,
    the software id 0x00001111, no parameter and version 1, and the
    device made from it has the single menu slot of the root folder. *)
Theorem agent_device_info (dest orig : byte) :
  exists f d,
    create_device_info_frame dest orig = Some f /\
    crsf_frame_parse f
    = inr (mk_device_info agent_python 0x12345678 0x01234502 0x00001111 0 1) /\
    CRSFDevice.init (Some f) = inr d /\
    CRSFDevice.origin d = b2z orig /\
    CRSFDevice.menu d = [None] /\
    CRSFDevice.match_ d f = inr true.
Proof.
  destruct (device_info_built dest orig
              [Byte.x41; Byte.x67; Byte.x65; Byte.x6e; Byte.x74; Byte.x20;
               Byte.x50; Byte.x79; Byte.x74; Byte.x68; Byte.x6f; Byte.x6e]
              agent_python
              (Byte.x12, Byte.x34, Byte.x56, Byte.x78)
              (Byte.x01, Byte.x23, Byte.x45, Byte.x02)
              (Byte.x00, Byte.x00, Byte.x11, Byte.x11) Byte.x00 Byte.x01)
    as (f & d & E & Hp & Hi & Ho & _ & Hm & Hma).
  - repeat constructor; discriminate.
  - reflexivity.
  - simpl. lia.
  - exists f, d. repeat split; assumption.
Qed.

Lemma index_missing (z : Z) (l : list byte) :
  Forall (fun x => b2z x <> z) l -> index z l = None.
Proof.
  intros H. induction H as [|x l Hx _ IH]; [reflexivity|].
  simpl. destruct (Z.eqb_spec (b2z x) z); [contradiction|]. now rewrite IH.
Qed.

(** X15.  What [parse] refuses: every frame of another type
    (ValueError), every DEVICE_INFO frame whose payload holds no NUL
    (ValueError), and every DEVICE_INFO frame with fewer than 14 bytes
    after the NUL that ends a name that decodes (IndexError). *)
Theorem parse_refuses :
  (forall (f : crsf_frame) (ty : Z),
     frame.type f = Some ty -> ty <> CRSF.MSG_TYPE_DEVICE_INFO ->
     crsf_frame_parse f = inl ValueError) /\
  (forall (g : crsf_frame) (payload : list byte),
     frame.type g = Some CRSF.MSG_TYPE_DEVICE_INFO ->
     frame.payload g = Some payload ->
     Forall (fun b => b2z b <> 0) payload ->
     crsf_frame_parse g = inl ValueError) /\
  (forall (h : crsf_frame) (nm tail : list byte) (s : str),
     frame.type h = Some CRSF.MSG_TYPE_DEVICE_INFO ->
     frame.payload h = Some (nm ++ Byte.x00 :: tail) ->
     Forall (fun b => b2z b <> 0) nm -> utf8_decode nm = Some s ->
     (length tail < 14)%nat ->
     crsf_frame_parse h = inl IndexError).
Proof.
  split; [|split].
  - intros f ty Ht Hty. unfold crsf_frame_parse. rewrite Ht.
    destruct (frame.payload f) as [payload|] eqn:Ep.
    + destruct (Z.eqb_spec ty CRSF.MSG_TYPE_DEVICE_INFO);
        [contradiction|reflexivity].
    + unfold frame.payload, frame.is_extended in Ep. rewrite Ht in Ep.
      cbn [option_map] in Ep.
      destruct (frame.extended_type ty); discriminate.
  - intros g payload Ht Hp Hz. unfold crsf_frame_parse. rewrite Ht, Hp.
    change (CRSF.MSG_TYPE_DEVICE_INFO =? CRSF.MSG_TYPE_DEVICE_INFO) with true.
    cbv iota. now rewrite index_missing.
  - intros h nm tail s Ht Hp Hnm Hs Htail.
    unfold crsf_frame_parse. rewrite Ht, Hp.
    change (CRSF.MSG_TYPE_DEVICE_INFO =? CRSF.MSG_TYPE_DEVICE_INFO) with true.
    cbv iota.
    rewrite (index_sentinel 0 nm _ Byte.x00 Hnm eq_refl).
    rewrite firstn_app_exact, Hs.
    rewrite skipn_past.
    unfold be32_at.
    do 14 (destruct tail as [|? tail]; [reflexivity|]).
    simpl in Htail. lia.
Qed.

Lemma parse_refuses_witness :
  crsf_frame_parse ping_frame = inl ValueError /\
  crsf_frame_parse (device_info_frame [Byte.x54; Byte.x58])
  = inl ValueError /\
  crsf_frame_parse
    (device_info_frame ([Byte.x54; Byte.x58]
                          ++ Byte.x00 :: [Byte.x01; Byte.x02; Byte.x03]))
  = inl IndexError.
Proof.
  destruct parse_refuses as (Hother & Hnonul & Hshort).
  split; [|split].
  - apply (Hother ping_frame CRSF.MSG_TYPE_PING).
    + reflexivity.
    + discriminate.
  - apply (Hnonul (device_info_frame [Byte.x54; Byte.x58])
             [Byte.x54; Byte.x58]).
    + reflexivity.
    + reflexivity.
    + repeat constructor; discriminate.
  - apply (Hshort (device_info_frame
                     ([Byte.x54; Byte.x58]
                        ++ Byte.x00 :: [Byte.x01; Byte.x02; Byte.x03]))
             [Byte.x54; Byte.x58] [Byte.x01; Byte.x02; Byte.x03] [84; 88]).
    + reflexivity.
    + reflexivity.
    + repeat constructor; discriminate.
    + reflexivity.
    + simpl. lia.
Defined.
